(** * yle-dl download backends: a shallow embedding of [yledl/backends.py]

    The development follows the Python module top to bottom:
    the capability constants, [BaseDownloader] (capability warnings and
    output naming), [ExternalDownloader] and [Subprocess] (process chains),
    the rtmpdump, AdobeHDS.php, ffmpeg and wget backends, and the
    [Backends] registry.

    Python strings are [string]; lists of arguments are [list string];
    [None]-able values are [option]; dictionaries and the filesystem are
    [gmap]; the capability [frozenset] is a [gset].  Code that logs, touches
    the filesystem, starts processes or raises runs in a small state and
    exception monad over an explicit world. *)

From stdpp Require Import base gmap sets list strings pretty.
From Stdlib Require Import Ascii ZArith Lia.

Open Scope string_scope.
Open Scope list_scope.
Open Scope stdpp_scope.

(** ** Python values *)

(** Truthiness of an optional string ([None] and [''] are false). *)
Definition truthy_str (o : option string) : bool :=
  match o with
  | Some s => negb (String.eqb s "")
  | None => false
  end.

(** Truthiness of an optional integer ([None] and [0] are false). *)
Definition truthy_int (o : option Z) : bool :=
  match o with
  | Some z => negb (Z.eqb z 0)
  | None => false
  end.

(** [c in s] for a one-character needle. *)
Fixpoint contains_char (c : ascii) (s : string) : bool :=
  match s with
  | EmptyString => false
  | String a s' => if Ascii.eqb a c then true else contains_char c s'
  end.

(** [s.startswith(c)] and [s.endswith(c)] for a one-character argument. *)
Definition startswith_char (c : ascii) (s : string) : bool :=
  match s with
  | String a _ => Ascii.eqb a c
  | EmptyString => false
  end.

Fixpoint endswith_char (c : ascii) (s : string) : bool :=
  match s with
  | EmptyString => false
  | String a EmptyString => Ascii.eqb a c
  | String _ s' => endswith_char c s'
  end.

(** [s.rfind(c)]: the highest index of [c] in [s], [-1] when absent. *)
Fixpoint rfind (c : ascii) (s : string) : Z :=
  match s with
  | EmptyString => -1
  | String a s' =>
      let r := rfind c s' in
      if (0 <=? r)%Z then (r + 1)%Z
      else if Ascii.eqb a c then 0%Z else (-1)%Z
  end.

(** Slices [s[:n]] and [s[n:]]. *)
Fixpoint str_take (n : nat) (s : string) : string :=
  match n, s with
  | S n', String a s' => String a (str_take n' s')
  | _, _ => EmptyString
  end.

Fixpoint str_drop (n : nat) (s : string) : string :=
  match n, s with
  | S n', String _ s' => str_drop n' s'
  | _, _ => s
  end.

(** [str(i)] for integers. *)
Definition str_nat (i : nat) : string := pretty i.
Definition str_int (z : Z) : string := pretty z.

(** ** [IOCapability] and result codes *)

Inductive IOCapability := RESUME | PROXY | RATELIMIT | DURATION.

Global Instance IOCapability_eq_dec : EqDecision IOCapability.
Proof. solve_decision. Defined.

Definition IOCapability_to_nat (c : IOCapability) : nat :=
  match c with RESUME => 0 | PROXY => 1 | RATELIMIT => 2 | DURATION => 3 end.

Definition IOCapability_of_nat (n : nat) : option IOCapability :=
  match n with
  | 0 => Some RESUME | 1 => Some PROXY | 2 => Some RATELIMIT
  | 3 => Some DURATION | _ => None
  end.

Lemma IOCapability_of_to_nat (c : IOCapability) :
  IOCapability_of_nat (IOCapability_to_nat c) = Some c.
Proof. by destruct c. Qed.

Global Instance IOCapability_countable : Countable IOCapability :=
  inj_countable IOCapability_to_nat IOCapability_of_nat IOCapability_of_to_nat.

(** The exit codes imported from [exitcodes]. *)
Inductive ResultCode :=
  RD_SUCCESS | RD_FAILED | RD_INCOMPLETE | RD_SUBPROCESS_EXECUTE_FAILED.

Global Instance ResultCode_eq_dec : EqDecision ResultCode.
Proof. solve_decision. Defined.

(** ** Exceptions, the world, and the monad *)

(** The Python exceptions that can travel through this module.
    [Nontermination] is not a Python exception: it marks a loop of the
    model that ran out of fuel, and is shown unreachable below. *)
Inductive exn :=
| OSError (strerror : string)
| KeyboardInterrupt
| UnboundLocalError (name : string)
| AttributeError (name : string)
| TypeError
| AssertionError
| IndexError
| Nontermination.

Inductive outcome (A : Type) :=
| Return (a : A)
| Raise (e : exn).
Arguments Return {A} a.
Arguments Raise {A} e.

(** What [stat] reports for a path, and whether [unlink] is permitted. *)
Inductive node_kind := RegularFile | Directory.

Global Instance node_kind_eq_dec : EqDecision node_kind.
Proof. solve_decision. Defined.

Record inode := {
  kind : node_kind;
  st_size : Z;
  unlinkable : bool
}.

Inductive level := DEBUG | INFO | WARNING | ERROR.

Definition pid := nat.

(** The keyword arguments of one [subprocess.Popen] call. *)
Record popen_call := {
  argv : list string;
  stdin_from : option pid;
  stdout_piped : bool;
  popen_env : option (gmap string string);
  preexec_pdeathsig : bool
}.

(** What the module does to the outside, in program order. *)
Inductive event :=
| Log (l : level) (msg : string)
| Popen (c : popen_call)
| CloseStdout (p : pid)
| Wait (p : pid)
| Kill (p : pid)
| Unlinked (path : string).

Inductive popen_result :=
| Started (p : pid)
| PopenRaises (e : exn).

(** The world: the filesystem by path (a path that [stat] cannot reach is
    absent), the listing of the working directory, [os.environ],
    [platform.system()], whether the logger is enabled for [DEBUG], and the
    behaviour of the operating system towards processes.  The process calls
    ([Popen], [wait], [os.kill]) are numbered by [os_clock]; the n-th call
    is answered by [popen_outcome n], [wait_raises n] or [kill_raises n],
    and a [wait] that is not disturbed returns [exit_status] of the
    process.  [fs_encodes] tells which of the characters above 127 the
    codec [sys.getfilesystemencoding()] can encode; the characters below
    128 are encoded as themselves by every filesystem encoding. *)
Record World := {
  fs : gmap string inode;
  fs_encodes : ascii → bool;
  cwd_listing : list string;
  environ : gmap string string;
  platform_system : string;
  debug_enabled : bool;
  popen_outcome : nat → list string → popen_result;
  wait_raises : nat → option exn;
  kill_raises : nat → option exn;
  exit_status : pid → Z;
  os_clock : nat;
  trace : list event
}.

Definition emit (e : event) (w : World) : World :=
  {| fs := fs w; fs_encodes := fs_encodes w;
     cwd_listing := cwd_listing w; environ := environ w;
     platform_system := platform_system w; debug_enabled := debug_enabled w;
     popen_outcome := popen_outcome w; wait_raises := wait_raises w;
     kill_raises := kill_raises w; exit_status := exit_status w;
     os_clock := os_clock w; trace := trace w ++ [e] |}.

Definition tick (w : World) : World :=
  {| fs := fs w; fs_encodes := fs_encodes w;
     cwd_listing := cwd_listing w; environ := environ w;
     platform_system := platform_system w; debug_enabled := debug_enabled w;
     popen_outcome := popen_outcome w; wait_raises := wait_raises w;
     kill_raises := kill_raises w; exit_status := exit_status w;
     os_clock := S (os_clock w); trace := trace w |}.

Definition set_fs (m : gmap string inode) (w : World) : World :=
  {| fs := m; fs_encodes := fs_encodes w;
     cwd_listing := cwd_listing w; environ := environ w;
     platform_system := platform_system w; debug_enabled := debug_enabled w;
     popen_outcome := popen_outcome w; wait_raises := wait_raises w;
     kill_raises := kill_raises w; exit_status := exit_status w;
     os_clock := os_clock w; trace := trace w |}.

(** State and exception monad: a raised exception keeps the state reached. *)
Definition M (S A : Type) : Type := S → outcome A * S.

Definition ret {S A} (a : A) : M S A := λ s, (Return a, s).

Definition raise {S A} (e : exn) : M S A := λ s, (Raise e, s).

Definition bind {S A B} (c : M S A) (k : A → M S B) : M S B :=
  λ s, match c s with
       | (Return a, s') => k a s'
       | (Raise e, s') => (Raise e, s')
       end.

Notation "x <~ c ;; k" := (bind c (λ x, k))
  (at level 100, c at next level, right associativity).
Notation "c ;;; k" := (bind c (λ _, k))
  (at level 100, right associativity).

Definition get {S} : M S S := λ s, (Return s, s).
Definition modify {S} (f : S → S) : M S unit := λ s, (Return tt, f s).

(** [try: c except OSError: pass] *)
Definition swallow_OSError {S} (c : M S unit) : M S unit :=
  λ s, match c s with
       | (Raise (OSError _), s') => (Return tt, s')
       | r => r
       end.

(** *** The logger and the system calls *)

Definition logger (l : level) (msg : string) : M World unit :=
  modify (emit (Log l msg)).

(** [os.path.exists], [os.path.isfile]: false when [stat] fails. *)
Definition path_exists (w : World) (path : string) : bool :=
  bool_decide (is_Some (fs w !! path)).

(** [s.encode(enc, 'replace')], written as the path that names the same
    file as the bytes: a character that [enc] cannot encode is replaced by
    [?], the others are kept.  A character below 128 is always kept. *)
Definition is_ascii7 (a : ascii) : bool :=
  match a with Ascii _ _ _ _ _ _ _ b7 => negb b7 end.

Definition encode_replace_char (encodes : ascii → bool) (a : ascii) : ascii :=
  if is_ascii7 a || encodes a then a else "?"%char.

Fixpoint encode_replace (encodes : ascii → bool) (s : string) : string :=
  match s with
  | EmptyString => EmptyString
  | String a s' =>
      String (encode_replace_char encodes a) (encode_replace encodes s')
  end.

(** [sys.getfilesystemencoding()] *)
Definition getfilesystemencoding (w : World) : ascii → bool := fs_encodes w.

Definition isfile (w : World) (path : string) : bool :=
  match fs w !! path with
  | Some n => match kind n with RegularFile => true | Directory => false end
  | None => false
  end.

(** [os.path.getsize]: raises [OSError] when [stat] fails. *)
Definition getsize (path : string) : M World Z :=
  λ w, match fs w !! path with
       | Some n => (Return (st_size n), w)
       | None => (Raise (OSError "No such file or directory"), w)
       end.

(** [os.remove]: raises [OSError] for a missing path, for a directory, and
    when the unlink is not permitted. *)
Definition os_remove (path : string) : M World unit :=
  λ w, match fs w !! path with
       | None => (Raise (OSError "No such file or directory"), w)
       | Some n =>
           match kind n with
           | Directory => (Raise (OSError "Is a directory"), w)
           | RegularFile =>
               if unlinkable n
               then (Return tt, emit (Unlinked path) (set_fs (delete path (fs w)) w))
               else (Raise (OSError "Permission denied"), w)
           end
       end.

(** [subprocess.Popen(...)] *)
Definition Popen_ (c : popen_call) : M World pid :=
  λ w, let w' := tick (emit (Popen c) w) in
       match popen_outcome w (os_clock w) (argv c) with
       | Started p => (Return p, w')
       | PopenRaises e => (Raise e, w')
       end.

(** [process.wait()] *)
Definition wait (p : pid) : M World Z :=
  λ w, let w' := tick (emit (Wait p) w) in
       match wait_raises w (os_clock w) with
       | None => (Return (exit_status w p), w')
       | Some e => (Raise e, w')
       end.

(** [os.kill(pid, signal.SIGINT)] *)
Definition os_kill_SIGINT (p : pid) : M World unit :=
  λ w, let w' := tick (emit (Kill p) w) in
       match kill_raises w (os_clock w) with
       | None => (Return tt, w')
       | Some e => (Raise e, w')
       end.

(** ** [os.path] *)

(** The scan of [genericpath._splitext] that skips the leading dots of the
    last path component: true when some character in
    [p[filenameIndex:dotIndex]] is not a dot. *)
Fixpoint splitext_scan (n : nat) (p : string) : bool :=
  match n, p with
  | S n', String a p' => if Ascii.eqb a "." then splitext_scan n' p' else true
  | _, _ => false
  end.

(** [posixpath.splitext] *)
Definition splitext (p : string) : string * string :=
  let sepIndex := rfind "/" p in
  let dotIndex := rfind "." p in
  if (sepIndex <? dotIndex)%Z then
    let filenameIndex := Z.to_nat (sepIndex + 1) in
    if splitext_scan (Z.to_nat dotIndex - filenameIndex) (str_drop filenameIndex p)
    then (str_take (Z.to_nat dotIndex) p, str_drop (Z.to_nat dotIndex) p)
    else (p, "")
  else (p, "").

(** [posixpath.join(a, b)] *)
Definition path_join (a b : string) : string :=
  if startswith_char "/" b then b
  else if String.eqb a "" || endswith_char "/" a then a +:+ b
  else a +:+ "/" +:+ b.

(** ** The I/O context handed to the backends *)

Record DownloadLimits := {
  ratelimit : option Z;
  duration : option Z
}.

Record IOContext := {
  outputfilename : option string;
  destdir : option string;
  resume : bool;
  excludechars : string;
  proxy : option string;
  download_limits : DownloadLimits;
  rtmpdump_binary : string;
  hds_binary : list string;
  ffmpeg_binary : string;
  wget_binary : string
}.

(** ** The downloader objects *)

(** The concrete classes with the attributes their constructors store. *)
Inductive Class :=
| RTMPBackend (args : list string)
| HDSBackend (url : string) (bitrate : option Z) (flavor_id : string)
| YoutubeDLHDSBackend (url : string) (bitrate : option Z)
| HLSBackend (url : string) (long_probe : bool)
| HLSAudioBackend (url : string) (long_probe : bool)
| WgetBackend (url : string).

(** An instance: its class and the attributes of [BaseDownloader]. *)
Record Downloader := {
  cls : Class;
  ext : option string;
  _cached_output_file : option string;
  io_capabilities : gset IOCapability
}.

(** The constructors ([__init__]). *)
Definition RTMPBackend_init (rtmpdump_args : list string) : Downloader :=
  {| cls := RTMPBackend rtmpdump_args; ext := Some ".flv";
     _cached_output_file := None;
     io_capabilities := {[RESUME; DURATION]} |}.

Definition HDSBackend_init (url : string) (bitrate : option Z)
    (flavor_id : string) (output_extension : option string) : Downloader :=
  {| cls := HDSBackend url bitrate flavor_id; ext := output_extension;
     _cached_output_file := None;
     io_capabilities := {[RESUME; PROXY; DURATION; RATELIMIT]} |}.


Definition HLSBackend_init (url : string) (output_extension : option string)
    (long_probe : bool) : Downloader :=
  {| cls := HLSBackend url long_probe; ext := output_extension;
     _cached_output_file := None;
     io_capabilities := {[DURATION]} |}.


Definition WgetBackend_init (url : string) (output_extension : option string)
    : Downloader :=
  {| cls := WgetBackend url; ext := output_extension;
     _cached_output_file := None;
     io_capabilities := {[RESUME; RATELIMIT; PROXY]} |}.

(** A method runs on the instance and the world. *)
Record State := {
  self : Downloader;
  world : World
}.

Definition in_world {A} (c : M World A) : M State A :=
  λ s, let '(r, w') := c (world s) in (r, {| self := self s; world := w' |}).

Definition set_cached_output_file (filename : string) : M State unit :=
  modify (λ s,
    {| self := {| cls := cls (self s); ext := ext (self s);
                  _cached_output_file := Some filename;
                  io_capabilities := io_capabilities (self s) |};
       world := world s |}).

(** [x or '.flv'] *)
Definition or_flv (x : option string) : string :=
  if truthy_str x then default ".flv" x else ".flv".

(** ['{}'.format(x)] for an optional string. *)
Definition format_opt (x : option string) : string := default "None" x.

Section Yledl.

Set Default Proof Using "Type".

(** [utils.sane_filename] and [http.yledl_user_agent] are imported from
    modules outside this one; they are parameters of the development. *)
Variable sane_filename : string → string → string.
Variable yledl_user_agent : string.

Definition warn_on_unsupported_feature (io : IOContext) : M State unit :=
  s <~ get ;;
  let caps := io_capabilities (self s) in
  (if resume io && bool_decide (RESUME ∉ caps)
   then in_world (logger WARNING "Resume not supported on this stream")
   else ret tt) ;;;
  (if truthy_str (proxy io) && bool_decide (PROXY ∉ caps)
   then in_world (logger WARNING
          "Proxy not supported on this stream. Trying to continue anyway")
   else ret tt) ;;;
  (if truthy_int (ratelimit (download_limits io))
      && bool_decide (RATELIMIT ∉ caps)
   then in_world (logger WARNING "Rate limiting not supported on this stream")
   else ret tt) ;;;
  (if truthy_int (duration (download_limits io))
      && bool_decide (DURATION ∉ caps)
   then in_world (logger WARNING "--duration will be ignored on this stream")
   else ret tt).

(** [BaseDownloader.pipe] *)
Definition BaseDownloader_pipe (io : IOContext) (subtitle_url : option string)
  : M State ResultCode := ret RD_FAILED.

(** The [while] loop of [next_available_filename]; [fuel] bounds the
    number of iterations. *)
Fixpoint next_available_loop (fuel : nat) (enc : ascii → bool)
    (basename ext' : string) (i : nat) (filename : string) : M World string :=
  λ w,
    if path_exists w (encode_replace enc filename) then
      match fuel with
      | O => (Raise Nontermination, w)
      | S fuel' =>
          next_available_loop fuel' enc basename ext' (S i)
            (basename +:+ "-" +:+ str_nat i +:+ ext')
            (emit (Log INFO (filename +:+ " exists, trying an alternative name")) w)
      end
    else (Return filename, w).

Definition next_available_filename (proposed : string) : M World string :=
  λ w,
    let enc := getfilesystemencoding w in
    let '(basename, ext') := splitext proposed in
    next_available_loop (S (size (fs w))) enc basename ext' 1 proposed w.

Definition outputfile_from_clip_title (clip_title : string) (io : IOContext)
    (resume' : bool) : M State string :=
  s <~ get ;;
  if truthy_str (_cached_output_file (self s)) then
    ret (default "" (_cached_output_file (self s)))
  else
    let ext' := or_flv (ext (self s)) in
    let filename := sane_filename clip_title (excludechars io) +:+ ext' in
    let filename :=
      if truthy_str (destdir io)
      then path_join (default "" (destdir io)) filename
      else filename in
    filename <~ (if negb resume'
                 then in_world (next_available_filename filename)
                 else ret filename) ;;
    set_cached_output_file filename ;;;
    ret filename.

Definition append_ext_if_missing (filename : string)
    (default_ext : option string) : string :=
  if contains_char "." filename then filename
  else filename +:+ or_flv default_ext.

(** [basename + ext] raises [TypeError] when [ext] is [None]. *)
Definition replace_extension (filename : string) (ext' : option string)
  : M World string :=
  let '(basename, old_ext) := splitext filename in
  if String.eqb old_ext "" || negb (bool_decide (Some old_ext = ext')) then
    (if negb (String.eqb old_ext "")
     then logger WARNING ("Unsupported extension " +:+ old_ext
                          +:+ ". Replacing it with " +:+ format_opt ext')
     else ret tt) ;;;
    match ext' with
    | Some e => ret (basename +:+ e)
    | None => raise TypeError
    end
  else ret filename.

Definition log_output_file (outputfile : string) (done : bool)
  : M World unit :=
  if negb (String.eqb outputfile "") && negb (String.eqb outputfile "-") then
    if done then logger INFO ("Stream saved to " +:+ outputfile)
    else logger INFO ("Output file: " +:+ outputfile)
  else ret tt.

Definition _construct_output_filename (clip_title : string) (io : IOContext)
    (force_extension : bool) : M State string :=
  s <~ get ;;
  if truthy_str (outputfilename io) then
    if force_extension then
      in_world (replace_extension (default "" (outputfilename io)) (ext (self s)))
    else
      ret (append_ext_if_missing (default "" (outputfilename io)) (ext (self s)))
  else
    let resume_job :=
      resume io && bool_decide (RESUME ∈ io_capabilities (self s)) in
    outputfile_from_clip_title clip_title io resume_job.

(** [output_filename]: [BaseDownloader]'s method forces the extension,
    [HLSBackend] (and so [HLSAudioBackend]) overrides it. *)
Definition output_filename (clip_title : string) (io : IOContext)
  : M State string :=
  s <~ get ;;
  match cls (self s) with
  | HLSBackend _ _ | HLSAudioBackend _ _ =>
      _construct_output_filename clip_title io false
  | _ => _construct_output_filename clip_title io true
  end.

(** ** [Subprocess] *)

Definition truthy_dict (d : option (gmap string string)) : bool :=
  match d with
  | Some m => negb (bool_decide (m = ∅))
  | None => false
  end.

(** [dict(os.environ)] updated with the extra variables. *)
Definition combine_envs (extra_environment : option (gmap string string))
  : M World (option (gmap string string)) :=
  w <~ get ;;
  if truthy_dict extra_environment
  then ret (Some (default ∅ extra_environment ∪ environ w))
  else ret None.

(** The [for i, args in enumerate(commands)] loop of [start_process];
    [n] is [len(commands)]. *)
Fixpoint start_loop (n : nat) (env : option (gmap string string))
    (i : nat) (commands : list (list string)) (processes : list pid)
  : M World (list pid) :=
  match commands with
  | [] => ret processes
  | args :: rest =>
      w <~ get ;;
      let preexec_fn :=
        Nat.eqb i 0 && negb (String.eqb (platform_system w) "Windows") in
      let stdin := last processes in
      let stdout := negb (Nat.eqb i (n - 1)) in
      p <~ Popen_ {| argv := args; stdin_from := stdin;
                     stdout_piped := stdout; popen_env := env;
                     preexec_pdeathsig := preexec_fn |} ;;
      start_loop n env (S i) rest (processes ++ [p])
  end.

(** [for p in processes[:-1]: p.stdout.close()] *)
Fixpoint close_stdouts (ps : list pid) : M World unit :=
  match ps with
  | [] => ret tt
  | p :: ps' => modify (emit (CloseStdout p)) ;;; close_stdouts ps'
  end.

Definition start_process (commands : list (list string))
    (env : option (gmap string string)) : M World pid :=
  match commands with
  | [] => raise AssertionError
  | _ =>
      processes <~ start_loop (length commands) env 0 commands [] ;;
      close_stdouts (removelast processes) ;;;
      match processes with
      | p :: _ => ret p
      | [] => raise IndexError
      end
  end.

Definition exit_code_to_rd (exit_code : Z) : ResultCode :=
  if Z.eqb exit_code 0 then RD_SUCCESS else RD_FAILED.

(** The [except] clauses of [execute].  [process] is the local variable
    of that name: unbound ([None]) while [start_process] has not
    returned. *)
Definition execute_except (process : option pid)
    (shell_command_string : string) (e : exn) : M World ResultCode :=
  match e with
  | KeyboardInterrupt =>
      swallow_OSError
        (match process with
         | Some p => os_kill_SIGINT p ;;; _ <~ wait p ;; ret tt
         | None => raise (UnboundLocalError "process")
         end) ;;;
      ret RD_INCOMPLETE
  | OSError strerror =>
      logger ERROR ("Failed to execute " +:+ shell_command_string) ;;;
      logger ERROR strerror ;;;
      ret RD_SUBPROCESS_EXECUTE_FAILED
  | _ => raise e
  end.

(** [' | '.join(' '.join(args) for args in commands)] *)
Definition shell_command_string (commands : list (list string)) : string :=
  String.concat " | " (map (String.concat " ") commands).

Definition execute (commands : list (list string))
    (extra_environment : option (gmap string string)) : M World ResultCode :=
  match commands with
  | [] => ret RD_SUCCESS
  | _ =>
      logger DEBUG "Executing:" ;;;
      logger DEBUG (shell_command_string commands) ;;;
      env <~ combine_envs extra_environment ;;
      λ w,
        match start_process commands env w with
        | (Raise e, w1) =>
            execute_except None (shell_command_string commands) e w1
        | (Return process, w1) =>
            match wait process w1 with
            | (Raise e, w2) =>
                execute_except (Some process)
                  (shell_command_string commands) e w2
            | (Return exit_code, w2) =>
                (Return (exit_code_to_rd exit_code), w2)
            end
        end
  end.

(** ** The command lines of the backends *)

(** [HDSBackend._bitrate_option] and [_limit_options] *)
Definition _bitrate_option (bitrate : option Z) : list string :=
  if truthy_int bitrate then ["--quality"; str_int (default 0%Z bitrate)]
  else [].

Definition _limit_options (limits : DownloadLimits) : list string :=
  (if truthy_int (ratelimit limits)
   then ["--maxspeed"; str_int (default 0%Z (ratelimit limits))] else [])
  ++ (if truthy_int (duration limits)
      then ["--duration"; str_int (default 0%Z (duration limits))] else []).

Definition adobehds_command_line (url : string) (bitrate : option Z)
    (io : IOContext) (extra_args : list string) : M World (list string) :=
  w <~ get ;;
  ret (hds_binary io
       ++ ["--manifest"; url]
       ++ _bitrate_option bitrate
       ++ _limit_options (download_limits io)
       ++ (if truthy_str (proxy io)
           then ["--proxy"; default "" (proxy io); "--fproxy"] else [])
       ++ (if debug_enabled w then ["--debug"] else [])
       ++ extra_args).

(** [HLSBackend._duration_arg], [_probe_args], [ffmpeg_command_line] *)
Definition _duration_arg (limits : DownloadLimits) : list string :=
  if truthy_int (duration limits)
  then ["-t"; str_int (default 0%Z (duration limits))] else [].

Definition _probe_args (long_probe : bool) : list string :=
  if long_probe then ["-probesize"; "80000000"] else [].

Definition ffmpeg_command_line (url : string) (long_probe : bool)
    (io : IOContext) (output_options : list string) : M World (list string) :=
  w <~ get ;;
  let loglevel := if debug_enabled w then "info" else "error" in
  ret ([ffmpeg_binary io; "-y"; "-loglevel"; loglevel; "-stats";
        "-thread_queue_size"; "512"]
       ++ _probe_args long_probe
       ++ ["-i"; url]
       ++ _duration_arg (download_limits io)
       ++ output_options).

(** [WgetBackend.shared_wget_args] *)
Definition shared_wget_args (wget_binary' output_filename' : string)
  : list string :=
  [wget_binary'; "-O"; output_filename'; "--no-use-server-timestamps";
   "--user-agent=" +:+ yledl_user_agent; "--timeout=20"].

(** [build_args], by class. *)
Definition build_args (clip_title : string) (io : IOContext)
  : M State (list string) :=
  s <~ get ;;
  match cls (self s) with
  | RTMPBackend args =>
      name <~ output_filename clip_title io ;;
      ret ([rtmpdump_binary io] ++ args ++ ["-o"; name]
           ++ (if resume io then ["-e"] else [])
           ++ (if truthy_int (duration (download_limits io))
               then ["--stop"; str_int (default 0%Z (duration (download_limits io)))]
               else []))
  | HDSBackend url bitrate _ =>
      name <~ output_filename clip_title io ;;
      in_world (adobehds_command_line url bitrate io
                  ["--delete"; "--outfile"; name])
  | HLSBackend url long_probe =>
      output_name <~ output_filename clip_title io ;;
      in_world (ffmpeg_command_line url long_probe io
                  ["-bsf:a"; "aac_adtstoasc"; "-vcodec"; "copy";
                   "-acodec"; "copy"; "file:" +:+ output_name])
  | HLSAudioBackend url long_probe =>
      output_name <~ output_filename clip_title io ;;
      in_world (ffmpeg_command_line url long_probe io
                  ["-map"; "0:4?"; "-f"; "mp3"; "file:" +:+ output_name])
  | WgetBackend url =>
      output_name <~ output_filename clip_title io ;;
      ret (shared_wget_args (wget_binary io) output_name
           ++ ["--progress=bar"; "--tries=5"; "--random-wait"]
           ++ (if resume io then ["-c"] else [])
           ++ (if truthy_int (ratelimit (download_limits io))
               then ["--limit-rate="
                     +:+ str_int (default 0%Z (ratelimit (download_limits io)))
                     +:+ "k"]
               else [])
           ++ [url])
  | YoutubeDLHDSBackend _ _ => raise (AttributeError "build_args")
  end.

(** [extra_environment]: [None] except for [WgetBackend]. *)
Definition extra_environment (io : IOContext)
  : M State (option (gmap string string)) :=
  s <~ get ;;
  match cls (self s) with
  | WgetBackend _ =>
      if truthy_str (proxy io) then
        if bool_decide (is_Some (environ (world s) !! "https_proxy")) then
          in_world (logger WARNING
            "--proxy ignored because https_proxy environment variable exists") ;;;
          ret None
        else ret (Some {[ "https_proxy" := default "" (proxy io) ]})
      else ret None
  | _ => ret None
  end.

Definition external_downloader (commands : list (list string))
    (env : option (gmap string string)) : M State ResultCode :=
  in_world (execute commands env).

(** [ExternalDownloader.save_stream] *)
Definition ExternalDownloader_save_stream (clip_title : string)
    (io : IOContext) : M State ResultCode :=
  args <~ build_args clip_title io ;;
  env <~ extra_environment io ;;
  outputfile <~ output_filename clip_title io ;;
  in_world (log_output_file outputfile false) ;;;
  retcode <~ external_downloader [args] env ;;
  (if bool_decide (retcode = RD_SUCCESS)
   then in_world (log_output_file outputfile true) else ret tt) ;;;
  ret retcode.

(** ** [RTMPBackend] *)

Definition is_small_file (filename : string) : M World bool :=
  λ w, match getsize filename w with
       | (Return sz, w') => (Return (sz <? 1024)%Z, w')
       | (Raise (OSError _), w') => (Return false, w')
       | (Raise e, w') => (Raise e, w')
       end.

Definition remove (filename : string) : M World unit :=
  swallow_OSError (os_remove filename).

Definition RTMPBackend_save_stream (clip_title : string) (io : IOContext)
  : M State ResultCode :=
  filename <~ output_filename clip_title io ;;
  small <~ (if resume io then in_world (is_small_file filename)
            else ret false) ;;
  (if small then in_world (remove filename) else ret tt) ;;;
  ExternalDownloader_save_stream clip_title io.

(** ** [HDSBackend] *)

Definition is_digit (a : ascii) : bool :=
  Nat.leb 48 (nat_of_ascii a) && Nat.leb (nat_of_ascii a) 57.

(** Removes the literal [pre] from the front of [s]. *)
Fixpoint strip_prefix (pre s : string) : option string :=
  match pre, s with
  | EmptyString, _ => Some s
  | String a pre', String b s' =>
      if Ascii.eqb a b then strip_prefix pre' s' else None
  | String _ _, EmptyString => None
  end.

(** [[0-9]+] at the front of [s]: [digits1] gives the rest after the
    longest run of digits, [None] if there is no digit. *)
Fixpoint skip_digits (s : string) : string :=
  match s with
  | String a s' => if is_digit a then skip_digits s' else s
  | EmptyString => s
  end.

Definition digits1 (s : string) : option string :=
  match s with
  | String a s' => if is_digit a then Some (skip_digits s') else None
  | EmptyString => None
  end.

(** [_<flavor>_Seg[0-9]+-Frag[0-9]+$] matched at the front of [s]; [$]
    holds at the end and before a final newline. *)
Definition fragment_suffix (flavor_id s : string) : bool :=
  match strip_prefix ("_" +:+ flavor_id +:+ "_Seg") s with
  | None => false
  | Some s1 =>
      match digits1 s1 with
      | None => false
      | Some s2 =>
          match strip_prefix "-Frag" s2 with
          | None => false
          | Some s3 =>
              match digits1 s3 with
              | None => false
              | Some rest =>
                  String.eqb rest "" || String.eqb rest (String "010" "")
              end
          end
      end
  end.

(** [re.match(r'.*_<flavor>_Seg[0-9]+-Frag[0-9]+$', x)]: [.*] is any run
    of characters other than newline. *)
Fixpoint fragment_match (flavor_id x : string) : bool :=
  fragment_suffix flavor_id x
  || match x with
     | String a x' =>
         if Ascii.eqb a "010" then false else fragment_match flavor_id x'
     | EmptyString => false
     end.

Definition fragments_exist (flavor_id : string) (w : World) : bool :=
  existsb (fragment_match flavor_id) (cwd_listing w).

Definition HDSBackend_save_stream (clip_title : string) (io : IOContext)
  : M State ResultCode :=
  s0 <~ get ;;
  let flavor_id :=
    match cls (self s0) with HDSBackend _ _ f => f | _ => "" end in
  output_name <~ output_filename clip_title io ;;
  s <~ get ;;
  if resume io && negb (String.eqb output_name "-")
     && isfile (world s) output_name
     && negb (fragments_exist flavor_id (world s))
  then
    in_world (logger INFO (output_name +:+ " has already been downloaded.")) ;;;
    ret RD_SUCCESS
  else ExternalDownloader_save_stream clip_title io.

(** ** [Backends] *)

Definition ADOBEHDSPHP := "adobehdsphp".
Definition YOUTUBEDL := "youtubedl".
Definition RTMPDUMP := "rtmpdump".
Definition FFMPEG := "ffmpeg".
Definition WGET := "wget".

Definition default_order : list string :=
  [WGET; FFMPEG; ADOBEHDSPHP; YOUTUBEDL; RTMPDUMP].

Definition is_valid_backend (backend_name : string) : bool :=
  bool_decide (backend_name ∈ default_order).

(** The [for bn in backend_names] loop; [backends] is the list built so
    far. *)
Fixpoint parse_loop (backend_names backends : list string)
  : M World (list string) :=
  match backend_names with
  | [] => ret backends
  | bn :: rest =>
      if negb (is_valid_backend bn) then
        logger WARNING ("Invalid backend: " +:+ bn) ;;;
        parse_loop rest backends
      else if bool_decide (bn ∉ backends) then
        parse_loop rest (backends ++ [bn])
      else parse_loop rest backends
  end.

Definition parse_backends (backend_names : list string)
  : M World (list string) :=
  parse_loop backend_names [].

(** * Properties *)

(** Unfolds the monad and the state plumbing. *)
Ltac munfold :=
  unfold bind, ret, raise, get, modify, in_world, logger,
    set_cached_output_file in *; simpl in *.

(** ** Strings *)

Lemma str_app_nil_l (s : string) : "" +:+ s = s.
Proof. reflexivity. Qed.

Lemma str_app_cons (a : ascii) (s1 s2 : string) :
  String a s1 +:+ s2 = String a (s1 +:+ s2).
Proof. reflexivity. Qed.

Lemma str_app_length (s1 s2 : string) :
  String.length (s1 +:+ s2) = String.length s1 + String.length s2.
Proof.
  induction s1 as [|a s1 IH]; [done|].
  rewrite str_app_cons. simpl. by rewrite IH.
Qed.

Lemma str_app_inj_r (s1 s2 t : string) : s1 +:+ t = s2 +:+ t → s1 = s2.
Proof.
  revert s2. induction s1 as [|a s1 IH]; intros [|b s2] H;
    rewrite ?str_app_nil_l, ?str_app_cons in H.
  - done.
  - apply (f_equal String.length) in H. simpl in H.
    rewrite str_app_length in H. lia.
  - apply (f_equal String.length) in H. simpl in H.
    rewrite str_app_length in H. lia.
  - injection H as -> H. f_equal. by apply IH.
Qed.

Lemma str_app_nonempty_r (s1 s2 : string) : s2 ≠ "" → s1 +:+ s2 ≠ "".
Proof.
  intros Hne H. apply (f_equal String.length) in H.
  rewrite str_app_length in H. destruct s2; [done|]. simpl in H. lia.
Qed.

(** ** The registry: [parse_backends] *)

(** The claim's words: the elements in first-occurrence order with the
    later duplicates removed. *)
Fixpoint first_occurrences (l : list string) : list string :=
  match l with
  | [] => []
  | x :: l' => x :: filter (λ y, y ≠ x) (first_occurrences l')
  end.

(** The world after the warnings for the rejected names. *)
Definition warned (rejected : list string) (w : World) : World :=
  foldl (λ w' bn, emit (Log WARNING ("Invalid backend: " +:+ bn)) w')
        w rejected.

Lemma elem_of_first_occurrences (l : list string) (x : string) :
  x ∈ first_occurrences l ↔ x ∈ l.
Proof.
  clear. induction l as [|a l IH]; simpl; [done|].
  rewrite !elem_of_cons, list_elem_of_filter, IH.
  destruct (decide (x = a)) as [->|Hne]; [tauto|].
  split; [intros [?|[_ ?]]; tauto | intros [?|?]; tauto].
Qed.

Lemma NoDup_first_occurrences (l : list string) :
  NoDup (first_occurrences l).
Proof.
  induction l as [|a l IH]; simpl; [constructor|].
  apply NoDup_cons. split.
  - rewrite list_elem_of_filter. by intros [Hne _].
  - by apply NoDup_filter.
Qed.

Lemma filter_all (P : string → Prop) `{∀ x, Decision (P x)}
    (l : list string) :
  (∀ x, x ∈ l → P x) → filter P l = l.
Proof.
  induction l as [|a l IH]; intros Hall; [done|].
  rewrite filter_cons_True by (apply Hall; by left).
  f_equal. apply IH. intros x Hx. apply Hall. by right.
Qed.

Lemma first_occurrences_NoDup_id (l : list string) :
  NoDup l → first_occurrences l = l.
Proof.
  induction 1 as [|a l Hnotin _ IH]; simpl; [done|].
  rewrite IH. f_equal. apply filter_all. by intros x Hx ->.
Qed.

(** The loop invariant: from [backends], the loop appends the first
    occurrences of the valid names not yet in [backends], and warns once
    for every rejected name. *)
Lemma parse_loop_spec (backend_names backends : list string) (w : World) :
  parse_loop backend_names backends w =
    (Return (backends ++
             filter (λ y, y ∉ backends)
               (first_occurrences
                  (filter (λ x, x ∈ default_order) backend_names))),
     warned (filter (λ x, x ∉ default_order) backend_names) w).
Proof.
  clear.
  revert backends w.
  induction backend_names as [|bn rest IH]; intros backends w; simpl.
  - unfold ret. by rewrite app_nil_r.
  - unfold is_valid_backend.
    destruct (decide (bn ∈ default_order)) as [Hv|Hv].
    + rewrite (bool_decide_eq_true_2 _ Hv). simpl.
      rewrite (filter_cons_True (λ x, x ∈ default_order)) by done.
      rewrite (filter_cons_False (λ x, x ∉ default_order)) by tauto.
      simpl.
      destruct (decide (bn ∈ backends)) as [Hb|Hb].
      * rewrite bool_decide_eq_false_2 by tauto.
        rewrite IH. do 2 f_equal.
        rewrite (filter_cons_False (λ y, y ∉ backends)) by tauto.
        rewrite list_filter_filter. f_equal. apply list_filter_iff.
        intros y. split; [|tauto]. intros Hy. split; [done|].
        by intros ->.
      * rewrite (bool_decide_eq_true_2 _ Hb).
        rewrite IH. f_equal.
        rewrite (filter_cons_True (λ y, y ∉ backends)) by done.
        rewrite <- app_assoc. simpl. do 2 f_equal.
        rewrite list_filter_filter. f_equal. apply list_filter_iff.
        intros y. rewrite not_elem_of_app, list_elem_of_singleton. tauto.
    + rewrite (bool_decide_eq_false_2 _ Hv). simpl.
      rewrite (filter_cons_False (λ x, x ∈ default_order)) by done.
      rewrite (filter_cons_True (λ x, x ∉ default_order)) by done.
      munfold. by rewrite IH.
Qed.

Lemma parse_backends_value (backend_names : list string) (w : World) :
  parse_backends backend_names w =
    (Return (first_occurrences
               (filter (λ x, x ∈ default_order) backend_names)),
     warned (filter (λ x, x ∉ default_order) backend_names) w).
Proof.
  unfold parse_backends. rewrite parse_loop_spec. simpl. do 2 f_equal.
  apply filter_all. intros x _. apply not_elem_of_nil.
Qed.

(** C4. [parse_backends] never raises and returns exactly the valid
    names of its argument, each once, in the order of their first
    occurrences (so the result for a prefix of the argument is a prefix of
    the result); it warns once per rejected name; filtering the result
    again changes nothing; and
    [parse_backends(["wget","bogus","ffmpeg","wget"])] is
    [["wget","ffmpeg"]]. *)
Theorem parse_backends_first_occurrence_order
    (backend_names : list string) (w : World) :
  let r := first_occurrences (filter (λ x, x ∈ default_order) backend_names) in
  parse_backends backend_names w
    = (Return r, warned (filter (λ x, x ∉ default_order) backend_names) w)
  ∧ NoDup r
  ∧ (∀ x, x ∈ r ↔ x ∈ backend_names ∧ is_valid_backend x = true)
  ∧ (∀ l1 l2 w', backend_names = l1 ++ l2 →
       ∃ r1, fst (parse_backends l1 w') = Return r1 ∧ r1 `prefix_of` r)
  ∧ (∀ w', parse_backends r w' = (Return r, w'))
  ∧ fst (parse_backends ["wget"; "bogus"; "ffmpeg"; "wget"] w)
      = Return ["wget"; "ffmpeg"].
Proof.
  clear.
  intros r. split; [apply parse_backends_value|].
  split; [apply NoDup_first_occurrences|].
  assert (Hmem : ∀ x, x ∈ r ↔ x ∈ backend_names ∧ is_valid_backend x = true).
  { intros x. unfold r, is_valid_backend.
    rewrite elem_of_first_occurrences, list_elem_of_filter,
      bool_decide_eq_true. tauto. }
  split; [exact Hmem|].
  split; [|split].
  - intros l1 l2 w' ->. eexists. rewrite parse_backends_value. simpl.
    split; [done|]. unfold r. rewrite filter_app.
    generalize (filter (λ x, x ∈ default_order) l1) as a.
    generalize (filter (λ x, x ∈ default_order) l2) as b.
    intros b a. clear. induction a as [|x a IH]; simpl.
    + apply prefix_nil.
    + apply prefix_cons.
      destruct IH as [k ->]. rewrite filter_app. by eexists.
  - intros w'. rewrite parse_backends_value.
    assert (Hall : ∀ x, x ∈ r → x ∈ default_order).
    { intros x Hx. apply Hmem in Hx as [_ Hx].
      by apply bool_decide_eq_true in Hx. }
    rewrite (filter_all (λ x, x ∈ default_order) r Hall).
    rewrite (first_occurrences_NoDup_id r (NoDup_first_occurrences _)).
    f_equal.
    replace (filter (λ x, x ∉ default_order) r) with (@nil string); [done|].
    symmetry. clear -Hall. induction r as [|a r IH]; [done|].
    rewrite filter_cons_False.
    + apply IH. intros x Hx. apply Hall. by right.
    + intros Hn. apply Hn, Hall. by left.
  - by rewrite parse_backends_value.
Qed.

(** ** Capability warnings *)

(** An option is requested when its value is true in Python's sense. *)
Definition requested (c : IOCapability) (io : IOContext) : bool :=
  match c with
  | RESUME => resume io
  | PROXY => truthy_str (proxy io)
  | RATELIMIT => truthy_int (ratelimit (download_limits io))
  | DURATION => truthy_int (duration (download_limits io))
  end.

Definition unsupported_warning (c : IOCapability) : string :=
  match c with
  | RESUME => "Resume not supported on this stream"
  | PROXY => "Proxy not supported on this stream. Trying to continue anyway"
  | RATELIMIT => "Rate limiting not supported on this stream"
  | DURATION => "--duration will be ignored on this stream"
  end.

(** The world after a run of events. *)
Definition emits (evs : list event) (w : World) : World :=
  foldl (λ w' e, emit e w') w evs.

Lemma emits_app (evs1 evs2 : list event) (w : World) :
  emits (evs1 ++ evs2) w = emits evs2 (emits evs1 w).
Proof. unfold emits. by rewrite foldl_app. Qed.

Lemma trace_emits (evs : list event) (w : World) :
  trace (emits evs w) = trace w ++ evs.
Proof.
  revert w. induction evs as [|e evs IH]; intros w; simpl.
  - by rewrite app_nil_r.
  - unfold emits in *. simpl. rewrite IH. simpl. by rewrite <- app_assoc.
Qed.

Lemma fs_emits (evs : list event) (w : World) : fs (emits evs w) = fs w.
Proof.
  revert w. induction evs as [|e evs IH]; intros w; [done|].
  unfold emits in *. simpl. by rewrite IH.
Qed.

Lemma os_clock_emits (evs : list event) (w : World) :
  os_clock (emits evs w) = os_clock w.
Proof.
  revert w. induction evs as [|e evs IH]; intros w; [done|].
  unfold emits in *. simpl. by rewrite IH.
Qed.

(** The warnings of [warn_on_unsupported_feature], in program order. *)
Definition unsupported_warnings (caps : gset IOCapability) (io : IOContext)
  : list event :=
  flat_map
    (λ c, if requested c io && bool_decide (c ∉ caps)
          then [Log WARNING (unsupported_warning c)] else [])
    [RESUME; PROXY; RATELIMIT; DURATION].

(** C6. For every instance, world and I/O context,
    [warn_on_unsupported_feature] returns normally, leaves the instance
    alone, and changes the world only by logging: one warning for each of
    resume, proxy, ratelimit and duration that is requested and is not in
    the capability set, nothing for the others, and nothing at a level
    other than [WARNING]. *)
Theorem warn_on_unsupported_feature_only_warns (io : IOContext) (s : State) :
  let evs := unsupported_warnings (io_capabilities (self s)) io in
  warn_on_unsupported_feature io s
    = (Return tt, {| self := self s; world := emits evs (world s) |})
  ∧ (∀ c, Log WARNING (unsupported_warning c) ∈ evs
          ↔ requested c io = true ∧ c ∉ io_capabilities (self s))
  ∧ (∀ e, e ∈ evs → ∃ c, e = Log WARNING (unsupported_warning c)).
Proof.
  clear.
  intros evs. subst evs. unfold unsupported_warnings. simpl.
  split; [|split].
  - unfold warn_on_unsupported_feature. munfold.
    destruct s as [self0 w]. simpl.
    destruct (resume io && bool_decide (RESUME ∉ io_capabilities self0));
      destruct (truthy_str (proxy io)
                && bool_decide (PROXY ∉ io_capabilities self0));
      destruct (truthy_int (ratelimit (download_limits io))
                && bool_decide (RATELIMIT ∉ io_capabilities self0));
      destruct (truthy_int (duration (download_limits io))
                && bool_decide (DURATION ∉ io_capabilities self0));
      reflexivity.
  - intros c. rewrite !elem_of_app.
    repeat match goal with
           | |- context [if ?b && bool_decide ?P then _ else _] =>
               let Hb := fresh "Hb" in let HP := fresh "HP" in
               destruct b eqn:Hb; simpl;
               [destruct (decide P) as [HP|HP];
                [rewrite (bool_decide_eq_true_2 _ HP)
                |rewrite (bool_decide_eq_false_2 _ HP)]|]
           end;
      rewrite ?list_elem_of_singleton, ?elem_of_nil;
      destruct c; simpl; rewrite ?Hb, ?Hb0, ?Hb1, ?Hb2;
      split; intros Hc; try (destruct Hc as [Hc1 Hc2]);
      try discriminate; try tauto;
      repeat match goal with
             | H : _ ∨ _ |- _ => destruct H
             | H : False |- _ => destruct H
             | H : Log _ _ = Log _ _ |- _ => discriminate H
             end; tauto.
  - intros e. rewrite !elem_of_app.
    repeat match goal with
           | |- context [if ?b then _ else _] => destruct b
           end;
      rewrite ?list_elem_of_singleton, ?elem_of_nil;
      intros He;
      repeat match goal with
             | H : _ ∨ _ |- _ => destruct H
             | H : False |- _ => destruct H
             end; subst;
      first [ by exists RESUME | by exists PROXY
            | by exists RATELIMIT | by exists DURATION ].
Qed.

(** ** Explicit file names on the variants that do not force the
    extension *)

Definition is_HLS (c : Class) : bool :=
  match c with
  | HLSBackend _ _ | HLSAudioBackend _ _ => true
  | _ => false
  end.

(** [contains_char] is [c in s]: some position of [s] holds [c]. *)
Lemma contains_char_spec (c : ascii) (s : string) :
  contains_char c s = true ↔ ∃ pre post, s = pre +:+ String c post.
Proof.
  induction s as [|a s IH]; simpl.
  - split; [done|]. intros (pre & post & H). by destruct pre.
  - destruct (Ascii.eqb_spec a c) as [->|Hne].
    + split; [|done]. intros _. by exists "", s.
    + rewrite IH. split.
      * intros (pre & post & ->). by exists (String a pre), post.
      * intros (pre & post & H). destruct pre as [|b pre];
          rewrite ?str_app_nil_l, ?str_app_cons in H.
        -- congruence.
        -- injection H as _ ->. by exists pre, post.
Qed.

(** C10. On an [HLSBackend] or [HLSAudioBackend] instance, with a
    non-empty [io.outputfilename], [output_filename] returns that name
    unchanged when it contains a ['.'] at any position, and otherwise the
    name followed by the instance's extension, or by ['.flv'] when the
    instance has no extension ([None] or ['']); nothing is logged or
    cached. *)
Theorem HLS_output_filename_appends_only_without_dot
    (clip_title filename : string) (io : IOContext) (s : State) :
  is_HLS (cls (self s)) = true →
  outputfilename io = Some filename →
  filename ≠ "" →
  ((∃ pre post, filename = pre +:+ "." +:+ post) →
     output_filename clip_title io s = (Return filename, s))
  ∧ ((¬ ∃ pre post, filename = pre +:+ "." +:+ post) →
     (∀ e, ext (self s) = Some e → e ≠ "" →
        output_filename clip_title io s = (Return (filename +:+ e), s))
     ∧ (ext (self s) = None ∨ ext (self s) = Some "" →
        output_filename clip_title io s = (Return (filename +:+ ".flv"), s))).
Proof.
  intros Hcls Hname Hne.
  assert (Hrun : output_filename clip_title io s
                 = (Return (append_ext_if_missing filename (ext (self s))), s)).
  { unfold output_filename, _construct_output_filename. munfold.
    assert (Ht : truthy_str (outputfilename io) = true).
    { rewrite Hname. simpl. by destruct (String.eqb_spec filename ""). }
    destruct (cls (self s)); try discriminate Hcls;
      by rewrite Ht, Hname. }
  rewrite Hrun. unfold append_ext_if_missing.
  split.
  - intros Hdot. apply (contains_char_spec "." filename) in Hdot.
    by rewrite Hdot.
  - intros Hnodot.
    assert (Hc : contains_char "." filename = false).
    { destruct (contains_char "." filename) eqn:Hc; [|done].
      apply contains_char_spec in Hc. by destruct Hnodot. }
    rewrite Hc. split.
    + intros e He Hen. rewrite He. unfold or_flv. simpl.
      by destruct (String.eqb_spec e "").
    + by intros [-> | ->].
Qed.

(** ** Worlds reached by logging, events and process calls *)

(** The world after [k] process calls. *)
Fixpoint ticks (k : nat) (w : World) : World :=
  match k with
  | O => w
  | S k' => ticks k' (tick w)
  end.

Lemma emits_tick (evs : list event) (w : World) :
  emits evs (tick w) = tick (emits evs w).
Proof.
  revert w. induction evs as [|e evs IH]; intros w; [done|].
  unfold emits in *. simpl. by rewrite <- IH.
Qed.

Lemma emits_ticks (evs : list event) (k : nat) (w : World) :
  emits evs (ticks k w) = ticks k (emits evs w).
Proof.
  revert w. induction k as [|k IH]; intros w; [done|].
  simpl. by rewrite IH, emits_tick.
Qed.

Lemma ticks_add (j k : nat) (w : World) :
  ticks k (ticks j w) = ticks (j + k) w.
Proof. revert w. induction j as [|j IH]; intros w; simpl; [done|apply IH]. Qed.

Lemma emits_cons (e : event) (evs : list event) (w : World) :
  emits (e :: evs) w = emits evs (emit e w).
Proof. reflexivity. Qed.

Lemma os_clock_ticks (k : nat) (w : World) :
  os_clock (ticks k w) = os_clock w + k.
Proof.
  revert w. induction k as [|k IH]; intros w; simpl; [lia|].
  rewrite IH. simpl. lia.
Qed.

Lemma trace_ticks (k : nat) (w : World) : trace (ticks k w) = trace w.
Proof. revert w. induction k as [|k IH]; intros w; simpl; [done|by rewrite IH]. Qed.

Lemma fs_ticks (k : nat) (w : World) : fs (ticks k w) = fs w.
Proof. revert w. induction k as [|k IH]; intros w; simpl; [done|by rewrite IH]. Qed.

(** Events and process calls leave the behaviour of the operating system
    as it is. *)
Lemma popen_outcome_ticks_emits (k : nat) (evs : list event) (w : World) :
  popen_outcome (ticks k (emits evs w)) = popen_outcome w.
Proof.
  revert w evs. induction k as [|k IH]; intros w evs; simpl.
  - revert w. induction evs as [|e evs IHe]; intros w; [done|].
    rewrite emits_cons, IHe. done.
  - rewrite <- emits_tick, IH. done.
Qed.

Lemma wait_raises_ticks_emits (k : nat) (evs : list event) (w : World) :
  wait_raises (ticks k (emits evs w)) = wait_raises w.
Proof.
  revert w evs. induction k as [|k IH]; intros w evs; simpl.
  - revert w. induction evs as [|e evs IHe]; intros w; [done|].
    rewrite emits_cons, IHe. done.
  - rewrite <- emits_tick, IH. done.
Qed.

Lemma kill_raises_ticks_emits (k : nat) (evs : list event) (w : World) :
  kill_raises (ticks k (emits evs w)) = kill_raises w.
Proof.
  revert w evs. induction k as [|k IH]; intros w evs; simpl.
  - revert w. induction evs as [|e evs IHe]; intros w; [done|].
    rewrite emits_cons, IHe. done.
  - rewrite <- emits_tick, IH. done.
Qed.

Lemma exit_status_ticks_emits (k : nat) (evs : list event) (w : World) :
  exit_status (ticks k (emits evs w)) = exit_status w.
Proof.
  revert w evs. induction k as [|k IH]; intros w evs; simpl.
  - revert w. induction evs as [|e evs IHe]; intros w; [done|].
    rewrite emits_cons, IHe. done.
  - rewrite <- emits_tick, IH. done.
Qed.

Lemma os_clock_ticks_emits (k : nat) (evs : list event) (w : World) :
  os_clock (ticks k (emits evs w)) = os_clock w + k.
Proof. by rewrite os_clock_ticks, os_clock_emits. Qed.

Lemma tick_ticks (k : nat) (w : World) : tick (ticks k w) = ticks (S k) w.
Proof.
  revert w. induction k as [|k IH]; intros w; [done|].
  simpl in *. by rewrite IH.
Qed.

(** Every world reached is put in the form [ticks k (emits evs w)]. *)
Lemma emit_ticks_emits (e : event) (k : nat) (evs : list event) (w : World) :
  emit e (ticks k (emits evs w)) = ticks k (emits (evs ++ [e]) w).
Proof. by rewrite emits_app, <- (emits_ticks [e]). Qed.

Lemma tick_ticks_emits (k : nat) (evs : list event) (w : World) :
  tick (ticks k (emits evs w)) = ticks (S k) (emits evs w).
Proof. apply tick_ticks. Qed.

Lemma emits_ticks_emits (evs2 : list event) (k : nat) (evs1 : list event)
    (w : World) :
  emits evs2 (ticks k (emits evs1 w)) = ticks k (emits (evs1 ++ evs2) w).
Proof. by rewrite emits_ticks, <- emits_app. Qed.

Lemma world_eq {A} (r : outcome A) (k1 k2 : nat) (evs1 evs2 : list event)
    (w : World) :
  k1 = k2 → evs1 = evs2 →
  (r, ticks k1 (emits evs1 w)) = (r, ticks k2 (emits evs2 w)).
Proof. by intros -> ->. Qed.

Ltac world_norm :=
  repeat first
    [ rewrite emit_ticks_emits | rewrite tick_ticks_emits
    | rewrite emits_ticks_emits | rewrite <- emits_app ].

Ltac world_done :=
  world_norm; apply world_eq; [simpl; lia | by rewrite <- ?app_assoc].

(** ** Process chains *)

(** From call number [t] on, the commands start one after the other as
    the processes [pids]. *)
Fixpoint spawns (po : nat → list string → popen_result) (t : nat)
    (commands : list (list string)) (pids : list pid) : Prop :=
  match commands, pids with
  | [], [] => True
  | args :: commands', p :: pids' =>
      po t args = Started p ∧ spawns po (S t) commands' pids'
  | _, _ => False
  end.

Definition only_popens (evs : list event) : Prop :=
  Forall (λ e, ∃ c, e = Popen c) evs.

Lemma spawns_length po t commands pids :
  spawns po t commands pids → length pids = length commands.
Proof.
  revert t pids. induction commands as [|args cs IH]; intros t [|p ps] H;
    simpl in *; try done.
  destruct H as [_ H]. f_equal. by eapply IH.
Qed.

(** The spawning loop when every command starts. *)
Lemma start_loop_spawns (commands : list (list string)) :
  ∀ (pids : list pid) (n : nat) env (i : nat) (processes : list pid) (w : World),
    spawns (popen_outcome w) (os_clock w) commands pids →
    ∃ evs, only_popens evs
      ∧ start_loop n env i commands processes w
        = (Return (processes ++ pids), ticks (length commands) (emits evs w)).
Proof.
  induction commands as [|args cs IH];
    intros [|p ps] n env i processes w H; simpl in H; try done.
  - exists []. split; [constructor|]. simpl. unfold ret. by rewrite app_nil_r.
  - destruct H as [Hp Hs]. simpl. munfold. unfold Popen_. simpl.
    rewrite Hp.
    match goal with
    | |- context [tick (emit (Popen ?c) w)] => set (c0 := c)
    end.
    destruct (IH ps n env (S i) (processes ++ [p]) (tick (emit (Popen c0) w)))
      as (evs & Hevs & Hrun); [exact Hs|].
    exists (Popen c0 :: evs). split.
    + constructor; [by eexists|done].
    + rewrite Hrun, <- app_assoc. simpl. by rewrite emits_tick.
Qed.

(** The spawning loop when the command after [commands1] fails to start. *)
Lemma start_loop_raises (commands1 : list (list string)) :
  ∀ (pids : list pid) (args : list string) (commands2 : list (list string))
    (e : exn) (n : nat) env (i : nat) (processes : list pid) (w : World),
    spawns (popen_outcome w) (os_clock w) commands1 pids →
    popen_outcome w (os_clock w + length commands1) args = PopenRaises e →
    ∃ evs, only_popens evs
      ∧ start_loop n env i (commands1 ++ args :: commands2) processes w
        = (Raise e, ticks (S (length commands1)) (emits evs w)).
Proof.
  induction commands1 as [|a cs IH];
    intros [|p ps] args commands2 e n env i processes w H Hf;
    simpl in H; try done.
  - simpl. munfold. unfold Popen_. simpl.
    rewrite Nat.add_0_r in Hf. rewrite Hf.
    eexists [_]. split; [|reflexivity].
    constructor; [by eexists|constructor].
  - destruct H as [Hp Hs]. simpl. munfold. unfold Popen_. simpl.
    rewrite Hp.
    match goal with
    | |- context [tick (emit (Popen ?c) w)] => set (c0 := c)
    end.
    destruct (IH ps args commands2 e n env (S i) (processes ++ [p])
                (tick (emit (Popen c0) w)))
      as (evs & Hevs & Hrun); [exact Hs| |].
    { simpl. rewrite <- Hf. f_equal. simpl. lia. }
    exists (Popen c0 :: evs). split.
    + constructor; [by eexists|done].
    + rewrite Hrun. simpl. by rewrite emits_tick.
Qed.

Lemma close_stdouts_emits (ps : list pid) (w : World) :
  close_stdouts ps w = (Return tt, emits (map CloseStdout ps) w).
Proof.
  revert w. induction ps as [|p ps IH]; intros w; simpl; [done|].
  munfold. by rewrite IH.
Qed.

Lemma start_process_spawns (commands : list (list string)) (head : pid)
    (pids : list pid) env (w : World) :
  spawns (popen_outcome w) (os_clock w) commands (head :: pids) →
  ∃ evs, only_popens evs
    ∧ start_process commands env w
      = (Return head,
         ticks (length commands)
           (emits (evs ++ map CloseStdout (removelast (head :: pids))) w)).
Proof.
  intros H.
  destruct (start_loop_spawns commands (head :: pids) (length commands)
              env 0 [] w H) as (evs & Hevs & Hrun).
  exists evs. split; [done|].
  unfold start_process. destruct commands as [|a cs] eqn:Hc; [done|].
  rewrite <- Hc in *. unfold bind. rewrite Hrun, close_stdouts_emits.
  by rewrite emits_ticks, <- emits_app.
Qed.

Lemma start_process_raises (commands1 : list (list string))
    (pids : list pid) (args : list string) (commands2 : list (list string))
    (e : exn) env (w : World) :
  spawns (popen_outcome w) (os_clock w) commands1 pids →
  popen_outcome w (os_clock w + length commands1) args = PopenRaises e →
  ∃ evs, only_popens evs
    ∧ start_process (commands1 ++ args :: commands2) env w
      = (Raise e, ticks (S (length commands1)) (emits evs w)).
Proof.
  intros H Hf.
  destruct (start_loop_raises commands1 pids args commands2 e
              (length (commands1 ++ args :: commands2)) env 0 [] w H Hf)
    as (evs & Hevs & Hrun).
  exists evs. split; [done|].
  unfold start_process.
  destruct (commands1 ++ args :: commands2) eqn:Hc.
  { by destruct commands1. }
  rewrite <- Hc in *. unfold bind. by rewrite Hrun.
Qed.

(** ** [Subprocess.execute] *)

(** The two debug lines that open every run of a non-empty chain. *)
Definition executing_log (commands : list (list string)) : list event :=
  [Log DEBUG "Executing:"; Log DEBUG (shell_command_string commands)].

(** The environment handed to [Popen]. *)
Definition combined_env (extra_environment : option (gmap string string))
    (w : World) : option (gmap string string) :=
  if truthy_dict extra_environment
  then Some (default ∅ extra_environment ∪ environ w) else None.

(** [execute] on a non-empty chain: the logging, then the [try] block. *)
Lemma execute_nonempty (commands : list (list string)) extra (w : World) :
  commands ≠ [] →
  execute commands extra w =
    let w0 := emits (executing_log commands) w in
    match start_process commands (combined_env extra w) w0 with
    | (Raise e, w1) =>
        execute_except None (shell_command_string commands) e w1
    | (Return process, w1) =>
        match wait process w1 with
        | (Raise e, w2) =>
            execute_except (Some process) (shell_command_string commands) e w2
        | (Return exit_code, w2) => (Return (exit_code_to_rd exit_code), w2)
        end
    end.
Proof.
  intros Hne. unfold execute. destruct commands as [|a cs] eqn:Hc; [done|].
  rewrite <- Hc. unfold bind, logger, modify, combine_envs, get, ret,
    combined_env. simpl.
  destruct (truthy_dict extra); reflexivity.
Qed.

Lemma wait_returns (p : pid) (w : World) :
  wait_raises w (os_clock w) = None →
  wait p w = (Return (exit_status w p), tick (emit (Wait p) w)).
Proof. intros H. unfold wait. by rewrite H. Qed.

Lemma wait_raising (p : pid) (e : exn) (w : World) :
  wait_raises w (os_clock w) = Some e →
  wait p w = (Raise e, tick (emit (Wait p) w)).
Proof. intros H. unfold wait. by rewrite H. Qed.

Lemma os_kill_returns (p : pid) (w : World) :
  kill_raises w (os_clock w) = None →
  os_kill_SIGINT p w = (Return tt, tick (emit (Kill p) w)).
Proof. intros H. unfold os_kill_SIGINT. by rewrite H. Qed.

Lemma os_kill_raising (p : pid) (e : exn) (w : World) :
  kill_raises w (os_clock w) = Some e →
  os_kill_SIGINT p w = (Raise e, tick (emit (Kill p) w)).
Proof. intros H. unfold os_kill_SIGINT. by rewrite H. Qed.

(** The [except KeyboardInterrupt] clause once [process] is bound. *)
Lemma execute_except_interrupt (p : pid) (cmd : string) (w : World) :
  execute_except (Some p) cmd KeyboardInterrupt w =
    match os_kill_SIGINT p w with
    | (Return _, w1) =>
        match wait p w1 with
        | (Return _, w2) | (Raise (OSError _), w2) => (Return RD_INCOMPLETE, w2)
        | (Raise e, w2) => (Raise e, w2)
        end
    | (Raise (OSError _), w1) => (Return RD_INCOMPLETE, w1)
    | (Raise e, w1) => (Raise e, w1)
    end.
Proof.
  unfold execute_except, swallow_OSError, bind, ret.
  destruct (os_kill_SIGINT p w) as [[[]|[]] w1]; try reflexivity.
  destruct (wait p w1) as [[?|[]] w2]; reflexivity.
Qed.

(** C7. When the commands before some command of the chain start and that
    command fails to start with an [OSError], [execute] returns
    [RD_SUBPROCESS_EXECUTE_FAILED] (it does not raise), and the last two
    things it does are to log, at [ERROR], the failed command line and the
    error message of the operating system. *)
Theorem execute_launch_failure
    (commands1 : list (list string)) (pids : list pid) (args : list string)
    (commands2 : list (list string)) (strerror : string)
    (extra : option (gmap string string)) (w : World) :
  spawns (popen_outcome w) (os_clock w) commands1 pids →
  popen_outcome w (os_clock w + length commands1) args
    = PopenRaises (OSError strerror) →
  ∃ evs, only_popens evs
    ∧ execute (commands1 ++ args :: commands2) extra w
      = (Return RD_SUBPROCESS_EXECUTE_FAILED,
         ticks (S (length commands1))
           (emits (executing_log (commands1 ++ args :: commands2) ++ evs
                   ++ [Log ERROR ("Failed to execute "
                         +:+ shell_command_string (commands1 ++ args :: commands2));
                       Log ERROR strerror]) w)).
Proof.
  intros Hs Hf.
  set (commands := commands1 ++ args :: commands2).
  assert (Hne : commands ≠ []) by (subst commands; by destruct commands1).
  rewrite (execute_nonempty commands extra w Hne). cbv zeta.
  destruct (start_process_raises commands1 pids args commands2
              (OSError strerror) (combined_env extra w)
              (emits (executing_log commands) w)) as (evs & Hevs & Hrun).
  { exact Hs. }
  { exact Hf. }
  exists evs. split; [done|].
  fold commands in Hrun. rewrite Hrun.
  unfold execute_except, bind, logger, modify, ret.
  world_done.
Qed.

(** C5. When the chain has started and the wait on the head process is
    interrupted by [KeyboardInterrupt], [execute] signals the head process
    and, if the signal was delivered, waits for it again; it returns
    [RD_INCOMPLETE] when that second wait returns or fails with an
    [OSError], and also when the signal itself fails with an [OSError]
    (then there is no second wait).  [RD_INCOMPLETE] is not [RD_FAILED]. *)
Theorem execute_interrupted_is_incomplete
    (commands : list (list string)) (head : pid) (pids : list pid)
    (extra : option (gmap string string)) (w : World) :
  spawns (popen_outcome w) (os_clock w) commands (head :: pids) →
  wait_raises w (os_clock w + length commands) = Some KeyboardInterrupt →
  ∃ evs,
    Forall (λ e, ∀ p, e ≠ Kill p ∧ e ≠ Wait p) evs
    ∧ (kill_raises w (os_clock w + length commands + 1) = None →
       (wait_raises w (os_clock w + length commands + 2) = None
        ∨ ∃ m, wait_raises w (os_clock w + length commands + 2)
               = Some (OSError m)) →
       execute commands extra w
       = (Return RD_INCOMPLETE,
          ticks (length commands + 3)
            (emits (evs ++ [Wait head; Kill head; Wait head]) w)))
    ∧ (∀ m, kill_raises w (os_clock w + length commands + 1)
            = Some (OSError m) →
       execute commands extra w
       = (Return RD_INCOMPLETE,
          ticks (length commands + 2)
            (emits (evs ++ [Wait head; Kill head]) w)))
    ∧ RD_INCOMPLETE ≠ RD_FAILED.
Proof.
  intros Hs Hw.
  assert (Hne : commands ≠ []) by (by destruct commands).
  destruct (start_process_spawns commands head pids (combined_env extra w)
              (emits (executing_log commands) w)) as (evs & Hevs & Hrun).
  { exact Hs. }
  exists (executing_log commands ++ evs
          ++ map CloseStdout (removelast (head :: pids))).
  split.
  { apply Forall_app. split; [by repeat constructor|].
    apply Forall_app. split.
    - eapply Forall_impl; [exact Hevs|]. by intros e [c ->] p.
    - apply Forall_forall. intros e He p.
      apply list_elem_of_fmap in He as (q & -> & _). done. }
  rewrite (execute_nonempty commands extra w Hne). cbv zeta.
  rewrite Hrun. rewrite <- emits_app.
  set (evs0 := executing_log commands ++ evs
               ++ map CloseStdout (removelast (head :: pids))).
  rewrite (wait_raising head KeyboardInterrupt)
    by (by rewrite wait_raises_ticks_emits, os_clock_ticks_emits).
  rewrite execute_except_interrupt. world_norm.
  split; [|split; [|done]].
  - intros Hk Hw2.
    rewrite os_kill_returns
      by (rewrite kill_raises_ticks_emits, os_clock_ticks_emits;
          rewrite <- Hk; f_equal; lia).
    world_norm.
    destruct Hw2 as [Hw2 | [m Hw2]].
    + rewrite wait_returns
        by (rewrite wait_raises_ticks_emits, os_clock_ticks_emits;
            rewrite <- Hw2; f_equal; lia).
      world_done.
    + rewrite (wait_raising head (OSError m))
        by (rewrite wait_raises_ticks_emits, os_clock_ticks_emits;
            rewrite <- Hw2; f_equal; lia).
      world_done.
  - intros m Hk.
    rewrite (os_kill_raising head (OSError m))
      by (rewrite kill_raises_ticks_emits, os_clock_ticks_emits;
          rewrite <- Hk; f_equal; lia).
    world_done.
Qed.

(** C2 (as the code has it). For a chain of two commands that both start,
    with a wait that is not disturbed, [execute] waits for the head
    process only and reports its exit code: [RD_FAILED] exactly when the
    first command's exit code is not zero, [RD_SUCCESS] otherwise,
    whatever the exit code of the second. *)
Theorem execute_chain_reports_head_exit_code
    (cmd1 cmd2 : list string) (p1 p2 : pid)
    (extra : option (gmap string string)) (w : World) :
  popen_outcome w (os_clock w) cmd1 = Started p1 →
  popen_outcome w (S (os_clock w)) cmd2 = Started p2 →
  wait_raises w (os_clock w + 2) = None →
  ∃ evs,
    Forall (λ e, ∀ p, e ≠ Kill p ∧ e ≠ Wait p) evs
    ∧ execute [cmd1; cmd2] extra w
      = (Return (exit_code_to_rd (exit_status w p1)),
         ticks 3 (emits (evs ++ [Wait p1]) w))
    ∧ (exit_status w p1 ≠ 0%Z →
       fst (execute [cmd1; cmd2] extra w) = Return RD_FAILED)
    ∧ (exit_status w p1 = 0%Z →
       fst (execute [cmd1; cmd2] extra w) = Return RD_SUCCESS).
Proof.
  intros H1 H2 Hw.
  destruct (start_process_spawns [cmd1; cmd2] p1 [p2] (combined_env extra w)
              (emits (executing_log [cmd1; cmd2]) w)) as (evs & Hevs & Hrun).
  { simpl. auto. }
  assert (Hexec : execute [cmd1; cmd2] extra w
                  = (Return (exit_code_to_rd (exit_status w p1)),
                     ticks 3 (emits ((executing_log [cmd1; cmd2] ++ evs
                                      ++ map CloseStdout (removelast [p1; p2]))
                                     ++ [Wait p1]) w))).
  { rewrite execute_nonempty by done. cbv zeta.
    rewrite Hrun. world_norm.
    rewrite wait_returns
      by (rewrite wait_raises_ticks_emits, os_clock_ticks_emits;
          exact Hw).
    rewrite exit_status_ticks_emits. world_done. }
  eexists. split; [|split; [exact Hexec|]].
  - apply Forall_app. split; [by repeat constructor|].
    apply Forall_app. split.
    + eapply Forall_impl; [exact Hevs|]. by intros e [c ->] p.
    + by repeat constructor.
  - rewrite Hexec. unfold exit_code_to_rd. simpl.
    split; intros He.
    + by destruct (Z.eqb_spec (exit_status w p1) 0).
    + by rewrite He.
Qed.

(** ** Output names *)

(** The names [next_available_filename] tries, in order: the proposed
    name, then [basename-1ext], [basename-2ext], ... *)
Definition candidate (proposed : string) (k : nat) : string :=
  match k with
  | O => proposed
  | S _ => fst (splitext proposed) +:+ "-" +:+ str_nat k
           +:+ snd (splitext proposed)
  end.

Definition exists_log (filename : string) : event :=
  Log INFO (filename +:+ " exists, trying an alternative name").

Lemma str_take_drop (n : nat) (s : string) : str_take n s +:+ str_drop n s = s.
Proof.
  revert s. induction n as [|n IH]; intros [|a s]; simpl; try done.
  by rewrite str_app_cons, IH.
Qed.

Lemma str_app_nil_r (s : string) : s +:+ "" = s.
Proof. induction s as [|a s IH]; [done|]. by rewrite str_app_cons, IH. Qed.

(** [splitext] cuts the path in two. *)
Lemma splitext_app (p : string) : fst (splitext p) +:+ snd (splitext p) = p.
Proof.
  unfold splitext.
  destruct (rfind "/" p <? rfind "." p)%Z; simpl.
  - destruct (splitext_scan _ _); simpl.
    + apply str_take_drop.
    + apply str_app_nil_r.
  - apply str_app_nil_r.
Qed.

(** The path that [next_available_filename] hands to [os.path.exists]
    for the name [filename]. *)
Definition tested_path (w : World) (filename : string) : string :=
  encode_replace (getfilesystemencoding w) filename.

Lemma path_exists_emit (e : event) (w : World) (path : string) :
  path_exists (emit e w) path = path_exists w path.
Proof. reflexivity. Qed.

Lemma encode_replace_app (enc : ascii → bool) (s1 s2 : string) :
  encode_replace enc (s1 +:+ s2)
  = encode_replace enc s1 +:+ encode_replace enc s2.
Proof.
  induction s1 as [|a s1 IH]; [done|].
  rewrite str_app_cons. simpl. by rewrite str_app_cons, IH.
Qed.

(** A concatenation survives the encoding exactly when both parts do. *)
Lemma encode_replace_app_fixed (enc : ascii → bool) (s1 s2 : string) :
  encode_replace enc (s1 +:+ s2) = s1 +:+ s2
  ↔ encode_replace enc s1 = s1 ∧ encode_replace enc s2 = s2.
Proof.
  induction s1 as [|a s1 IH].
  - rewrite str_app_nil_l. split; [done|by intros [_ ?]].
  - rewrite str_app_cons. simpl. split.
    + intros [= Ha Hs]. apply IH in Hs as [Hs1 Hs2].
      split; [|done]. by f_equal.
    + intros [[= Ha Hs1] Hs2]. f_equal; [done|]. by apply IH.
Qed.

(** Decimal numerals are ASCII, so every encoding keeps them. *)
Lemma encode_replace_pretty_N_go (enc : ascii → bool) (x : N) :
  ∀ s, encode_replace enc s = s →
       encode_replace enc (pretty_N_go x s) = pretty_N_go x s.
Proof.
  induction (N.lt_wf_0 x) as [x _ IH]. intros s Hs.
  destruct (decide (0 < x)%N) as [Hx|Hx].
  - rewrite pretty_N_go_step by done. apply IH.
    + apply N.div_lt; lia.
    + simpl. rewrite Hs. f_equal.
      unfold pretty_N_char. by repeat case_match.
  - replace x with 0%N by lia. by rewrite pretty_N_go_0.
Qed.

Lemma encode_replace_str_nat (enc : ascii → bool) (n : nat) :
  encode_replace enc (str_nat n) = str_nat n.
Proof.
  unfold str_nat, pretty, pretty_nat, pretty, pretty_N.
  case_decide; [done|]. by apply encode_replace_pretty_N_go.
Qed.

(** The loop returns the first name of its sequence whose encoded form does
    not exist, provided the fuel reaches it. *)
Lemma next_available_loop_first_free (enc : ascii → bool)
    (basename ext' : string) (k : nat) :
  ∀ (c : nat → string) (fuel i : nat) (w : World),
    (∀ j, c (S j) = basename +:+ "-" +:+ str_nat (i + j) +:+ ext') →
    (∀ j, j < k → path_exists w (encode_replace enc (c j)) = true) →
    path_exists w (encode_replace enc (c k)) = false →
    (k ≤ fuel)%nat →
    next_available_loop fuel enc basename ext' i (c 0) w
      = (Return (c k), emits (map (λ j, exists_log (c j)) (seq 0 k)) w).
Proof.
  induction k as [|k IH]; intros c fuel i w Hc Hex Hfree Hfuel.
  - destruct fuel; simpl; by rewrite Hfree.
  - destruct fuel as [|fuel]; [lia|]. simpl.
    rewrite (Hex 0) by lia.
    specialize (IH (λ j, c (S j)) fuel (S i)
                  (emit (exists_log (c 0)) w)).
    simpl in IH. rewrite (Hc 0) in IH. rewrite Nat.add_0_r in IH.
    fold (exists_log (c 0)). rewrite IH.
    + f_equal. rewrite <- fmap_S_seq.
      by rewrite <- list_fmap_compose.
    + intros j. rewrite Hc. by replace (i + S j) with (S (i + j)) by lia.
    + intros j Hj. rewrite path_exists_emit. apply Hex. lia.
    + by rewrite path_exists_emit.
    + lia.
Qed.

Lemma candidate_inj (basename ext' : string) (i j : nat) :
  basename +:+ "-" +:+ str_nat i +:+ ext'
    = basename +:+ "-" +:+ str_nat j +:+ ext' → i = j.
Proof.
  intros H. apply (inj (String.app basename)) in H.
  apply (inj (String.app "-")) in H.
  apply str_app_inj_r in H. by apply (inj pretty) in H.
Qed.

(** The encoded forms of the numbered names are pairwise different. *)
Lemma encoded_candidate_inj (enc : ascii → bool) (basename ext' : string)
    (i j : nat) :
  encode_replace enc (basename +:+ "-" +:+ str_nat i +:+ ext')
    = encode_replace enc (basename +:+ "-" +:+ str_nat j +:+ ext') → i = j.
Proof.
  rewrite !encode_replace_app, !encode_replace_str_nat.
  change (encode_replace enc "-") with "-".
  apply candidate_inj.
Qed.

(** A name that survives the encoding is tested as it is, and so are the
    numbered names made from it. *)
Lemma tested_path_candidate (w : World) (proposed : string) (k : nat) :
  tested_path w proposed = proposed →
  tested_path w (candidate proposed k) = candidate proposed k.
Proof.
  intros Hp. destruct k as [|k]; [done|].
  unfold tested_path, candidate in *.
  rewrite <- (splitext_app proposed) in Hp at 1 2.
  apply encode_replace_app_fixed in Hp as [Hb He].
  rewrite !encode_replace_app, encode_replace_str_nat, Hb, He.
  reflexivity.
Qed.

(** A finite filesystem cannot hold all the names of an injective
    sequence: one of the first [size m + 1] is free. *)
Lemma free_name_exists (m : gmap string inode) (f : nat → string) :
  (∀ i j, f i = f j → i = j) →
  ∃ k, (k ≤ size m)%nat ∧ m !! f k = None.
Proof.
  intros Hinj.
  destruct (decide (Forall (λ k, is_Some (m !! f k)) (seq 0 (S (size m)))))
    as [Hall|Hnot].
  - exfalso.
    assert (Hsub : (list_to_set (f <$> seq 0 (S (size m))) : gset string)
                   ⊆ dom m).
    { intros x Hx. apply elem_of_list_to_set, list_elem_of_fmap in Hx
        as (k & -> & Hk).
      apply elem_of_dom. rewrite Forall_forall in Hall. by apply Hall. }
    apply subseteq_size in Hsub.
    rewrite size_list_to_set, length_fmap, length_seq, size_dom in Hsub.
    + lia.
    + apply NoDup_fmap_2_strong; [|apply NoDup_seq].
      intros i j _ _. apply Hinj.
  - apply not_Forall_Exists in Hnot; [|apply _].
    apply Exists_exists in Hnot as (k & Hk & Hnone).
    apply elem_of_seq in Hk. exists k. split; [lia|].
    simpl in Hnone. by apply eq_None_not_Some.
Qed.

(** The least index at which a bounded boolean sequence is false. *)
Lemma least_false (ex : nat → bool) (n : nat) :
  (∃ k, (k ≤ n)%nat ∧ ex k = false) →
  ∃ k, (k ≤ n)%nat ∧ ex k = false ∧ ∀ j, j < k → ex j = true.
Proof.
  assert (Hscan : ∀ m, (∀ j, j < m → ex j = true)
                       ∨ ∃ k, k < m ∧ ex k = false
                              ∧ ∀ j, j < k → ex j = true).
  { induction m as [|m [Hall|(k & Hk & Hf & Hmin)]].
    - left. intros j Hj. lia.
    - destruct (ex m) eqn:Hm.
      + left. intros j Hj.
        destruct (decide (j = m)) as [->|]; [done|]. apply Hall. lia.
      + right. exists m. split; [lia|]. done.
    - right. exists k. split; [lia|]. done. }
  intros (k & Hk & Hf).
  destruct (Hscan (S n)) as [Hall|(k' & Hk' & Hf' & Hmin)].
  - rewrite Hall in Hf by lia. done.
  - exists k'. split; [lia|]. done.
Qed.

Lemma path_exists_false (w : World) (path : string) :
  path_exists w path = false ↔ fs w !! path = None.
Proof.
  unfold path_exists. rewrite bool_decide_eq_false.
  by rewrite eq_None_not_Some.
Qed.

(** [next_available_filename] always returns, within [size fs + 2] tests:
    the first name of the sequence whose encoded form does not exist, after
    one log line per name whose encoded form exists. *)
Lemma next_available_filename_bounded (proposed : string) (w : World) :
  ∃ k,
    (k ≤ S (size (fs w)))%nat
    ∧ path_exists w (tested_path w (candidate proposed k)) = false
    ∧ (∀ j, j < k → path_exists w (tested_path w (candidate proposed j)) = true)
    ∧ next_available_filename proposed w
      = (Return (candidate proposed k),
         emits (map (λ j, exists_log (candidate proposed j)) (seq 0 k)) w).
Proof.
  destruct (free_name_exists (fs w)
              (λ k, tested_path w (candidate proposed (S k))))
    as (k0 & Hk0 & Hnone).
  { intros i j H. unfold tested_path, candidate in H.
    apply encoded_candidate_inj in H. lia. }
  destruct (least_false
              (λ k, path_exists w (tested_path w (candidate proposed k)))
              (S (size (fs w)))) as (k & Hk & Hfree & Hmin).
  { exists (S k0). split; [lia|]. by apply path_exists_false. }
  exists k. split; [done|]. split; [done|]. split; [done|].
  unfold next_available_filename.
  pose proof (next_available_loop_first_free (getfilesystemencoding w)
                (fst (splitext proposed)) (snd (splitext proposed)) k
                (candidate proposed) (S (size (fs w))) 1 w) as Hloop.
  destruct (splitext proposed) as [basename ext'] eqn:Hsplit.
  simpl in Hloop. apply Hloop; try done.
  intros j. unfold candidate. by rewrite Hsplit.
Qed.

Lemma next_available_filename_first_free (proposed : string) (w : World) :
  ∃ k,
    path_exists w (tested_path w (candidate proposed k)) = false
    ∧ (∀ j, j < k → path_exists w (tested_path w (candidate proposed j)) = true)
    ∧ next_available_filename proposed w
      = (Return (candidate proposed k),
         emits (map (λ j, exists_log (candidate proposed j)) (seq 0 k)) w).
Proof.
  destruct (next_available_filename_bounded proposed w)
    as (k & _ & Hfree & Hmin & Hrun).
  by exists k.
Qed.

Lemma or_flv_nonempty (x : option string) : or_flv x ≠ "".
Proof.
  unfold or_flv, truthy_str. destruct x as [e|]; [|done].
  destruct (String.eqb_spec e ""); done.
Qed.

Lemma path_join_nonempty (a b : string) : b ≠ "" → path_join a b ≠ "".
Proof.
  intros Hb. unfold path_join.
  destruct (startswith_char "/" b); [done|].
  destruct (String.eqb a "" || endswith_char "/" a).
  - by apply str_app_nonempty_r.
  - apply str_app_nonempty_r. by apply str_app_nonempty_r.
Qed.

Lemma candidate_nonempty (proposed : string) (k : nat) :
  proposed ≠ "" → candidate proposed k ≠ "".
Proof.
  intros Hp. destruct k as [|k]; [done|]. unfold candidate.
  apply str_app_nonempty_r. by rewrite str_app_cons.
Qed.

Lemma truthy_str_Some (x : string) : x ≠ "" → truthy_str (Some x) = true.
Proof. intros Hx. simpl. by destruct (String.eqb_spec x ""). Qed.

(** The name proposed from the clip title, before collision avoidance. *)
Definition proposed_filename (self' : Downloader) (clip_title : string)
    (io : IOContext) : string :=
  let filename :=
    sane_filename clip_title (excludechars io) +:+ or_flv (ext self') in
  if truthy_str (destdir io)
  then path_join (default "" (destdir io)) filename
  else filename.

Lemma proposed_filename_nonempty self' clip_title io :
  proposed_filename self' clip_title io ≠ "".
Proof.
  unfold proposed_filename.
  destruct (truthy_str (destdir io)).
  - apply path_join_nonempty, str_app_nonempty_r, or_flv_nonempty.
  - apply str_app_nonempty_r, or_flv_nonempty.
Qed.

(** The state in which [filename] is the cached decision and the events
    [evs] have happened. *)
Definition cached (filename : string) (evs : list event) (s : State) : State :=
  {| self := {| cls := cls (self s); ext := ext (self s);
                _cached_output_file := Some filename;
                io_capabilities := io_capabilities (self s) |};
     world := emits evs (world s) |}.

(** The first decision of an instance. *)
Lemma outputfile_from_clip_title_fresh (clip_title : string)
    (io : IOContext) (resume' : bool) (s : State) :
  truthy_str (_cached_output_file (self s)) = false →
  let proposed := proposed_filename (self s) clip_title io in
  (resume' = true →
     outputfile_from_clip_title clip_title io resume' s
     = (Return proposed, cached proposed [] s))
  ∧ (resume' = false →
     ∃ k,
       path_exists (world s) (tested_path (world s) (candidate proposed k))
       = false
       ∧ (∀ j, j < k →
            path_exists (world s) (tested_path (world s) (candidate proposed j))
            = true)
       ∧ outputfile_from_clip_title clip_title io resume' s
         = (Return (candidate proposed k),
            cached (candidate proposed k)
              (map (λ j, exists_log (candidate proposed j)) (seq 0 k)) s)).
Proof.
  intros Hcache proposed.
  unfold outputfile_from_clip_title, bind, get.
  rewrite Hcache. fold (proposed_filename (self s) clip_title io).
  fold proposed. split; intros ->; simpl.
  - reflexivity.
  - destruct (next_available_filename_first_free proposed (world s))
      as (k & Hfree & Hmin & Hrun).
    exists k. split; [done|]. split; [done|].
    unfold in_world. rewrite Hrun. reflexivity.
Qed.

(** A call on an instance with a cached decision returns it and changes
    nothing. *)
Lemma outputfile_from_clip_title_hit (path : string) (self' : Downloader)
    (w' : World) (clip_title : string) (io : IOContext) (resume' : bool) :
  _cached_output_file self' = Some path → path ≠ "" →
  outputfile_from_clip_title clip_title io resume'
    {| self := self'; world := w' |}
  = (Return path, {| self := self'; world := w' |}).
Proof.
  intros Hc Hne. unfold outputfile_from_clip_title, bind, get. simpl.
  rewrite Hc. by rewrite truthy_str_Some.
Qed.

(** C3. With no explicit output file name, on an instance that has not
    decided yet: a resume on a backend with the [RESUME] capability returns
    the proposed name as it is; otherwise [output_filename] returns the
    first name among the proposed name, [basename-1ext], [basename-2ext],
    ... whose re-encoding [filename.encode(enc, 'replace')] does not exist
    (the re-encoding of every earlier name exists), and when the proposed
    name survives the re-encoding unchanged this is the first name of the
    sequence that does not exist.  An instance that has decided returns its
    decision, whatever exists. *)
Theorem output_filename_first_free_name (clip_title : string)
    (io : IOContext) (s : State) :
  truthy_str (outputfilename io) = false →
  let proposed := proposed_filename (self s) clip_title io in
  let resume_job :=
    resume io && bool_decide (RESUME ∈ io_capabilities (self s)) in
  let tested name := path_exists (world s) (tested_path (world s) name) in
  (truthy_str (_cached_output_file (self s)) = false →
     (resume_job = true →
        output_filename clip_title io s
        = (Return proposed, cached proposed [] s))
     ∧ (resume_job = false →
        ∃ k,
          tested (candidate proposed k) = false
          ∧ (∀ j, j < k → tested (candidate proposed j) = true)
          ∧ output_filename clip_title io s
            = (Return (candidate proposed k),
               cached (candidate proposed k)
                 (map (λ j, exists_log (candidate proposed j)) (seq 0 k)) s)
          ∧ (tested_path (world s) proposed = proposed →
             path_exists (world s) (candidate proposed k) = false
             ∧ ∀ j, j < k →
                 path_exists (world s) (candidate proposed j) = true)))
  ∧ (∀ path, _cached_output_file (self s) = Some path → path ≠ "" →
       output_filename clip_title io s = (Return path, s)).
Proof.
  intros Hexplicit proposed resume_job tested.
  assert (Hrun : output_filename clip_title io s
                 = outputfile_from_clip_title clip_title io resume_job s).
  { unfold output_filename, _construct_output_filename, bind, get.
    destruct (cls (self s)); by rewrite Hexplicit. }
  rewrite Hrun. split.
  - intros Hcache.
    destruct (outputfile_from_clip_title_fresh clip_title io resume_job s
                Hcache) as [Hverbatim Hrename].
    split; [exact Hverbatim|].
    intros Hjob. destruct (Hrename Hjob) as (k & Hfree & Hmin & Hdecide).
    exists k. split; [exact Hfree|]. split; [exact Hmin|].
    split; [exact Hdecide|].
    intros Hp. split.
    + by rewrite <- (tested_path_candidate (world s) proposed k Hp).
    + intros j Hj.
      rewrite <- (tested_path_candidate (world s) proposed j Hp).
      by apply Hmin.
  - intros path Hc Hne. destruct s as [self0 w0].
    by apply outputfile_from_clip_title_hit.
Qed.


Definition only_logs (evs : list event) : Prop :=
  Forall (λ e, ∃ l msg, e = Log l msg) evs.

Lemma only_logs_exists_log (f : nat → string) (l : list nat) :
  only_logs (map (λ j, exists_log (f j)) l).
Proof.
  apply Forall_forall. intros e He.
  apply list_elem_of_fmap in He as (j & -> & _). by eexists _, _.
Qed.

(** Every call of [outputfile_from_clip_title] returns a non-empty path,
    which is then the cached decision; it only logs. *)
Lemma outputfile_from_clip_title_decides (clip_title : string)
    (io : IOContext) (resume' : bool) (s : State) :
  ∃ path self1 evs,
    outputfile_from_clip_title clip_title io resume' s
      = (Return path, {| self := self1; world := emits evs (world s) |})
    ∧ only_logs evs
    ∧ path ≠ ""
    ∧ _cached_output_file self1 = Some path
    ∧ cls self1 = cls (self s) ∧ ext self1 = ext (self s)
    ∧ io_capabilities self1 = io_capabilities (self s).
Proof.
  destruct (truthy_str (_cached_output_file (self s))) eqn:Hcache.
  - destruct (_cached_output_file (self s)) as [path|] eqn:Hc; [|done].
    assert (Hne : path ≠ "").
    { simpl in Hcache. by destruct (String.eqb_spec path ""). }
    exists path, (self s), []. split.
    + destruct s as [self0 w0]. by apply outputfile_from_clip_title_hit.
    + repeat split; try done. constructor.
  - pose proof (proposed_filename_nonempty (self s) clip_title io) as Hp.
    destruct (outputfile_from_clip_title_fresh clip_title io resume' s Hcache)
      as [Hres Hnew].
    destruct resume'.
    + eexists _, _, []. split; [by apply Hres|].
      repeat split; try done. constructor.
    + destruct (Hnew eq_refl) as (k & _ & _ & Hrun).
      eexists _, _, _. split; [exact Hrun|].
      repeat split; try done.
      * apply only_logs_exists_log.
      * by apply candidate_nonempty.
Qed.

(** C9. [outputfile_from_clip_title] always returns a path, and from then
    on every call on the instance returns that path and changes nothing,
    whatever the title, the I/O context, the resume flag and the world
    are. *)
Theorem outputfile_from_clip_title_decision_is_final (clip_title : string)
    (io : IOContext) (resume' : bool) (s : State) :
  ∃ path s1,
    outputfile_from_clip_title clip_title io resume' s = (Return path, s1)
    ∧ ∀ clip_title' io' resume'' w',
        outputfile_from_clip_title clip_title' io' resume''
          {| self := self s1; world := w' |}
        = (Return path, {| self := self s1; world := w' |}).
Proof.
  destruct (outputfile_from_clip_title_decides clip_title io resume' s)
    as (path & self1 & evs & Hrun & _ & Hne & Hc & _).
  eexists _, _. split; [exact Hrun|].
  intros. by apply outputfile_from_clip_title_hit.
Qed.

(** [replace_extension] depends on the name and the extension only, and
    at most logs. *)
Lemma replace_extension_run (filename : string) (ext' : option string) :
  ∃ r evs, only_logs evs
    ∧ ∀ w, replace_extension filename ext' w = (r, emits evs w).
Proof.
  unfold replace_extension.
  destruct (splitext filename) as [basename old_ext].
  destruct (String.eqb old_ext "" || negb (bool_decide (Some old_ext = ext'))).
  - destruct (negb (String.eqb old_ext "")); destruct ext' as [e|].
    + eexists _, [_]. split; [|reflexivity].
      repeat constructor. by eexists _, _.
    + eexists _, [_]. split; [|reflexivity].
      repeat constructor. by eexists _, _.
    + eexists _, []. split; [constructor|reflexivity].
    + eexists _, []. split; [constructor|reflexivity].
  - eexists _, []. split; [constructor|reflexivity].
Qed.

(** [output_filename] at most logs and caches; once it has returned a
    name, it returns the same name on the instance in any world. *)
Lemma output_filename_run (clip_title : string) (io : IOContext) (s : State) :
  ∃ r self1 evs,
    output_filename clip_title io s
      = (r, {| self := self1; world := emits evs (world s) |})
    ∧ only_logs evs
    ∧ cls self1 = cls (self s) ∧ ext self1 = ext (self s)
    ∧ io_capabilities self1 = io_capabilities (self s)
    ∧ ∀ name, r = Return name →
        ∀ w', ∃ evs', only_logs evs'
          ∧ output_filename clip_title io {| self := self1; world := w' |}
            = (Return name, {| self := self1; world := emits evs' w' |}).
Proof.
  destruct (truthy_str (outputfilename io)) eqn:Hexplicit.
  - destruct (is_HLS (cls (self s))) eqn:Hhls.
    + exists (Return (append_ext_if_missing
                        (default "" (outputfilename io)) (ext (self s)))),
        (self s), [].
      assert (Hrun : ∀ w', output_filename clip_title io
                             {| self := self s; world := w' |}
                     = (Return (append_ext_if_missing
                          (default "" (outputfilename io)) (ext (self s))),
                        {| self := self s; world := w' |})).
      { intros w'. unfold output_filename, _construct_output_filename,
          bind, get, ret. simpl.
        destruct (cls (self s)); try discriminate Hhls;
          by rewrite Hexplicit. }
      split; [destruct s; apply Hrun|].
      split; [constructor|]. repeat split; try done.
      intros name [= <-] w'. exists []. split; [constructor|apply Hrun].
    + destruct (replace_extension_run (default "" (outputfilename io))
                  (ext (self s))) as (r & evs & Hevs & Hrep).
      assert (Hrun : ∀ w', output_filename clip_title io
                             {| self := self s; world := w' |}
                     = (r, {| self := self s; world := emits evs w' |})).
      { intros w'. unfold output_filename, _construct_output_filename,
          bind, get, in_world. simpl.
        destruct (cls (self s)); try discriminate Hhls;
          by rewrite Hexplicit, Hrep. }
      exists r, (self s), evs.
      split; [destruct s; apply Hrun|].
      split; [done|]. repeat split; try done.
      intros name -> w'. exists evs. split; [done|apply Hrun].
  - assert (Hrun : ∀ s', output_filename clip_title io s'
              = outputfile_from_clip_title clip_title io
                  (resume io && bool_decide (RESUME ∈ io_capabilities (self s')))
                  s').
    { intros s'. unfold output_filename, _construct_output_filename, bind, get.
      destruct (cls (self s')); by rewrite Hexplicit. }
    destruct (outputfile_from_clip_title_decides clip_title io
                (resume io && bool_decide (RESUME ∈ io_capabilities (self s))) s)
      as (path & self1 & evs & Hres & Hevs & Hne & Hc & Hcls & Hext & Hcaps).
    exists (Return path), self1, evs.
    split; [by rewrite Hrun|]. split; [done|]. repeat split; try done.
    intros name [= <-] w'. exists []. split; [constructor|].
    rewrite Hrun. by apply outputfile_from_clip_title_hit.
Qed.

Lemma isfile_emits (evs : list event) (w : World) (path : string) :
  isfile (emits evs w) path = isfile w path.
Proof. unfold isfile. by rewrite fs_emits. Qed.

Lemma cwd_listing_emits (evs : list event) (w : World) :
  cwd_listing (emits evs w) = cwd_listing w.
Proof.
  revert w. induction evs as [|e evs IH]; intros w; [done|].
  rewrite emits_cons, IH. done.
Qed.

Lemma fragments_exist_emits (flavor_id : string) (evs : list event)
    (w : World) :
  fragments_exist flavor_id (emits evs w) = fragments_exist flavor_id w.
Proof. unfold fragments_exist. by rewrite cwd_listing_emits. Qed.

(** ** [HDSBackend.save_stream] *)

(** C1 (as the code has it). On an [HDSBackend] instance, when
    [io.resume] is set, the resolved output name is not ['-'] and is an
    existing regular file, and no name in the working directory matches
    the fragment pattern of the flavor, [save_stream] returns [RD_SUCCESS]
    and only logs: no process is started. *)
Theorem HDSBackend_save_stream_already_downloaded
    (clip_title : string) (io : IOContext) (s s1 : State)
    (url : string) (bitrate : option Z) (flavor_id output_name : string) :
  cls (self s) = HDSBackend url bitrate flavor_id →
  output_filename clip_title io s = (Return output_name, s1) →
  resume io = true →
  output_name ≠ "-" →
  isfile (world s) output_name = true →
  fragments_exist flavor_id (world s) = false →
  ∃ evs,
    only_logs evs
    ∧ HDSBackend_save_stream clip_title io s
      = (Return RD_SUCCESS,
         {| self := self s1; world := emits evs (world s) |}).
Proof.
  intros Hcls Hname Hresume Hdash Hfile Hfrag.
  destruct (output_filename_run clip_title io s)
    as (r & self1 & evs & Hrun & Hevs & _).
  rewrite Hrun in Hname. injection Hname as -> <-.
  exists (evs ++ [Log INFO (output_name +:+ " has already been downloaded.")]).
  split.
  { apply Forall_app. split; [done|]. repeat constructor. by eexists _, _. }
  unfold HDSBackend_save_stream, bind, get. rewrite Hcls, Hrun. simpl.
  rewrite Hresume, isfile_emits, Hfile, fragments_exist_emits, Hfrag.
  destruct (String.eqb_spec output_name "-"); [done|]. simpl.
  by rewrite emits_app.
Qed.

(** ** [RTMPBackend.save_stream] *)

Local Arguments execute : simpl never.
Local Arguments output_filename : simpl never.
Local Arguments ExternalDownloader_save_stream : simpl never.

(** The command line [RTMPBackend.build_args] builds for the output
    [name]. *)
Definition rtmpdump_command (args : list string) (io : IOContext)
    (name : string) : list string :=
  [rtmpdump_binary io] ++ args ++ ["-o"; name]
  ++ (if resume io then ["-e"] else [])
  ++ (if truthy_int (duration (download_limits io))
      then ["--stop"; str_int (default 0%Z (duration (download_limits io)))]
      else []).

Lemma log_output_file_run (outputfile : string) (done : bool) :
  ∃ evs, only_logs evs
    ∧ ∀ w, log_output_file outputfile done w = (Return tt, emits evs w).
Proof.
  unfold log_output_file.
  destruct (negb (String.eqb outputfile "") && negb (String.eqb outputfile "-")).
  - destruct done; eexists [_];
      (split; [repeat constructor; by eexists _, _ | reflexivity]).
  - exists []. split; [constructor|reflexivity].
Qed.

(** On an instance whose output name is settled, [build_args] of
    [RTMPBackend] gives [rtmpdump_command] and only logs. *)
Lemma build_args_RTMP (clip_title : string) (io : IOContext)
    (self1 : Downloader) (args : list string) (name : string) :
  cls self1 = RTMPBackend args →
  (∀ w', ∃ evs', only_logs evs'
     ∧ output_filename clip_title io {| self := self1; world := w' |}
       = (Return name, {| self := self1; world := emits evs' w' |})) →
  ∀ w, ∃ evs, only_logs evs
    ∧ build_args clip_title io {| self := self1; world := w |}
      = (Return (rtmpdump_command args io name),
         {| self := self1; world := emits evs w |}).
Proof.
  intros Hcls Hname w. destruct (Hname w) as (evs & Hevs & Hrun).
  exists evs. split; [done|].
  unfold build_args, bind, get. simpl. rewrite Hcls, Hrun. reflexivity.
Qed.

(** [ExternalDownloader.save_stream] on such an instance: some logging,
    then the run of the one-command chain, then the completion line if the
    run succeeded. *)
Lemma ExternalDownloader_save_stream_RTMP (clip_title : string)
    (io : IOContext) (self1 : Downloader) (args : list string)
    (name : string) :
  cls self1 = RTMPBackend args →
  (∀ w', ∃ evs', only_logs evs'
     ∧ output_filename clip_title io {| self := self1; world := w' |}
       = (Return name, {| self := self1; world := emits evs' w' |})) →
  ∀ w, ∃ evs evs_done, only_logs evs ∧ only_logs evs_done
    ∧ ExternalDownloader_save_stream clip_title io
        {| self := self1; world := w |}
      = match execute [rtmpdump_command args io name] None (emits evs w) with
        | (Return retcode, w') =>
            (Return retcode,
             {| self := self1;
                world := if bool_decide (retcode = RD_SUCCESS)
                         then emits evs_done w' else w' |})
        | (Raise e, w') => (Raise e, {| self := self1; world := w' |})
        end.
Proof.
  intros Hcls Hname w.
  destruct (build_args_RTMP clip_title io self1 args name Hcls Hname w)
    as (evs1 & Hevs1 & Hargs).
  destruct (Hname (emits evs1 w)) as (evs2 & Hevs2 & Hout).
  destruct (log_output_file_run name false) as (evs3 & Hevs3 & Hlog).
  destruct (log_output_file_run name true) as (evs4 & Hevs4 & Hlogd).
  exists (evs1 ++ evs2 ++ evs3), evs4.
  split; [by repeat (apply Forall_app; split)|]. split; [done|].
  unfold ExternalDownloader_save_stream, bind. rewrite Hargs.
  unfold extra_environment, bind, get, ret. simpl. rewrite Hcls.
  rewrite Hout. unfold in_world, external_downloader, in_world. simpl.
  rewrite Hlog. simpl. rewrite <- !emits_app, <- ?app_assoc.
  destruct (execute [rtmpdump_command args io name] None
              (emits (evs1 ++ evs2 ++ evs3) w)) as [[retcode|e] w'];
    [|reflexivity].
  simpl. destruct (bool_decide (retcode = RD_SUCCESS)); [|reflexivity].
  simpl. by rewrite Hlogd.
Qed.

(** Whatever the operating system answers, the run of a one-command chain
    logs the command line and then calls [Popen] on that command. *)
Lemma execute_single_trace (args : list string)
    (env : option (gmap string string)) (w : World) :
  ∃ c evs,
    argv c = args
    ∧ trace (snd (execute [args] env w))
      = trace w ++ executing_log [args] ++ Popen c :: evs.
Proof.
  assert (Hleaf : ∀ (c : popen_call) (evs : list event) (tr : list event),
            argv c = args →
            tr = trace w ++ executing_log [args] ++ Popen c :: evs →
            ∃ c' evs', argv c' = args
              ∧ tr = trace w ++ executing_log [args] ++ Popen c' :: evs').
  { intros c evs tr Hc ->. by exists c, evs. }
  rewrite execute_nonempty by done. cbv zeta.
  unfold start_process, start_loop, bind, get, ret, Popen_, close_stdouts.
  simpl.
  destruct (popen_outcome w (os_clock w) args) as [p|e].
  - simpl. unfold wait. simpl.
    destruct (wait_raises w (S (os_clock w))) as [e|].
    + destruct e; simpl;
        unfold swallow_OSError, bind, ret, os_kill_SIGINT, wait, logger,
          modify, raise; simpl;
        try (eapply Hleaf; [|simpl; rewrite <- ?app_assoc; reflexivity];
             reflexivity).
      destruct (kill_raises w (S (S (os_clock w)))) as [e|]; simpl.
      * destruct e;
          (eapply Hleaf; [|simpl; rewrite <- ?app_assoc; reflexivity];
           reflexivity).
      * destruct (wait_raises w (S (S (S (os_clock w))))) as [e|]; simpl;
          [destruct e|];
          (eapply Hleaf; [|simpl; rewrite <- ?app_assoc; reflexivity];
           reflexivity).
    + eapply Hleaf; [|simpl; rewrite <- ?app_assoc; reflexivity].
      reflexivity.
  - destruct e; simpl;
      unfold swallow_OSError, bind, ret, logger, modify, raise; simpl;
      (eapply Hleaf; [|simpl; rewrite <- ?app_assoc; reflexivity];
       reflexivity).
Qed.

(** The cleanup step of [RTMPBackend.save_stream], on the world reached by
    resolving the output name. *)
Definition cleanup_small_file (io : IOContext) (filename : string)
  : M State unit :=
  small <~ (if resume io then in_world (is_small_file filename)
            else ret false) ;;
  (if small then in_world (remove filename) else ret tt).

Lemma RTMPBackend_save_stream_steps (clip_title : string) (io : IOContext)
    (s : State) :
  RTMPBackend_save_stream clip_title io s
  = (filename <~ output_filename clip_title io ;;
     cleanup_small_file io filename ;;;
     ExternalDownloader_save_stream clip_title io) s.
Proof.
  unfold RTMPBackend_save_stream, cleanup_small_file, bind.
  destruct (output_filename clip_title io s) as [[filename|e] s1]; [|done].
  destruct (resume io); [|done].
  destruct (in_world (is_small_file filename) s1) as [[small|e] s2]; done.
Qed.

(** The cleanup never raises; it changes the state only by deleting a
    regular file below 1024 bytes whose removal is permitted. *)
Lemma cleanup_small_file_run (io : IOContext) (filename : string) (s : State) :
  cleanup_small_file io filename s
  = (Return tt,
     match fs (world s) !! filename with
     | Some n =>
         if resume io && (st_size n <? 1024)%Z && unlinkable n
            && bool_decide (kind n = RegularFile)
         then {| self := self s;
                 world := emit (Unlinked filename)
                            (set_fs (delete filename (fs (world s))) (world s)) |}
         else s
     | None => s
     end).
Proof.
  unfold cleanup_small_file, bind, ret, in_world, is_small_file, getsize,
    remove, swallow_OSError, os_remove.
  destruct s as [self0 w]. simpl.
  destruct (resume io); simpl.
  - destruct (fs w !! filename) as [n|] eqn:Hn; simpl; [|done].
    destruct (st_size n <? 1024)%Z; simpl; [|done].
    rewrite Hn. destruct (kind n), (unlinkable n); done.
  - by destruct (fs w !! filename).
Qed.

(** C8. On an [RTMPBackend] instance with [io.resume] set: when the
    resolved output name is a regular file below 1024 bytes that may be
    removed, [save_stream] deletes it and then runs
    [ExternalDownloader.save_stream] in the world without the file, which
    builds the resume command (with [-e]) and calls [Popen] on it after the
    deletion.  When the name does not exist, is a directory, may not be
    removed, or is not below 1024 bytes, nothing is raised by the check and
    the removal, and the call is the run of
    [ExternalDownloader.save_stream] on the unchanged filesystem. *)
Theorem RTMPBackend_save_stream_removes_small_file
    (clip_title : string) (io : IOContext) (s s1 : State)
    (args : list string) (name : string) :
  cls (self s) = RTMPBackend args →
  resume io = true →
  output_filename clip_title io s = (Return name, s1) →
  (∀ n, fs (world s) !! name = Some n →
        kind n = RegularFile → (st_size n < 1024)%Z → unlinkable n = true →
     let s2 := {| self := self s1;
                  world := emit (Unlinked name)
                             (set_fs (delete name (fs (world s1))) (world s1)) |} in
     RTMPBackend_save_stream clip_title io s
       = ExternalDownloader_save_stream clip_title io s2
     ∧ fs (world s2) !! name = None
     ∧ ∃ pre c post,
         only_logs pre
         ∧ argv c = rtmpdump_command args io name
         ∧ "-e" ∈ argv c
         ∧ Popen c ∈ post
         ∧ trace (world (snd (RTMPBackend_save_stream clip_title io s)))
           = trace (world s) ++ pre ++ Unlinked name :: post)
  ∧ ((fs (world s) !! name = None
      ∨ ∃ n, fs (world s) !! name = Some n
             ∧ (kind n = Directory ∨ unlinkable n = false
                ∨ (1024 ≤ st_size n)%Z)) →
     RTMPBackend_save_stream clip_title io s
       = ExternalDownloader_save_stream clip_title io s1).
Proof.
  intros Hcls Hresume Hname.
  destruct (output_filename_run clip_title io s)
    as (r & self1 & evs0 & Hrun & Hevs0 & Hcls1 & _ & _ & Hagain).
  rewrite Hrun in Hname. injection Hname as -> <-.
  specialize (Hagain name eq_refl). rewrite Hcls in Hcls1.
  set (s1 := {| self := self1; world := emits evs0 (world s) |}) in *.
  assert (Hsteps : RTMPBackend_save_stream clip_title io s
            = ExternalDownloader_save_stream clip_title io
                (snd (cleanup_small_file io name s1))).
  { rewrite RTMPBackend_save_stream_steps. unfold bind at 1. rewrite Hrun.
    unfold bind at 1. by rewrite cleanup_small_file_run. }
  rewrite Hsteps, cleanup_small_file_run. unfold s1. simpl.
  rewrite fs_emits, Hresume. split.
  - intros n Hn Hkind Hsize Hunl. rewrite Hn, Hunl, Hkind.
    rewrite (proj2 (Z.ltb_lt _ _) Hsize). simpl.
    split; [done|]. split; [apply lookup_delete_eq|].
    set (w2 := emit (Unlinked name)
                 (set_fs (delete name (fs (world s)))
                    (emits evs0 (world s)))).
    destruct (ExternalDownloader_save_stream_RTMP clip_title io self1 args
                name Hcls1 Hagain w2) as (evs & evs_done & Hevs & _ & Hsave).
    destruct (execute_single_trace (rtmpdump_command args io name) None
                (emits evs w2)) as (c & evs' & Hc & Htrace).
    rewrite trace_emits in Htrace.
    assert (Hw2 : trace w2 = trace (world s) ++ evs0 ++ [Unlinked name]).
    { unfold w2. simpl. by rewrite trace_emits, <- app_assoc. }
    rewrite Hw2 in Htrace.
    assert (He : "-e" ∈ argv c).
    { rewrite Hc. unfold rtmpdump_command. rewrite Hresume.
      rewrite !elem_of_app. right. right. right. left. by left. }
    rewrite Hsave.
    destruct (execute [rtmpdump_command args io name] None (emits evs w2))
      as [[retcode|e] w'] eqn:Hexec; simpl in Htrace |- *.
    + destruct (bool_decide (retcode = RD_SUCCESS)).
      * exists evs0, c, (evs ++ executing_log [rtmpdump_command args io name]
                         ++ Popen c :: evs' ++ evs_done).
        split; [done|]. split; [done|]. split; [done|]. split.
        { rewrite !elem_of_app. right. right. by left. }
        rewrite trace_emits, Htrace. rewrite <- !app_assoc. simpl.
        by rewrite <- ?app_assoc.
      * exists evs0, c, (evs ++ executing_log [rtmpdump_command args io name]
                         ++ Popen c :: evs').
        split; [done|]. split; [done|]. split; [done|]. split.
        { rewrite !elem_of_app. right. right. by left. }
        rewrite Htrace. rewrite <- !app_assoc. simpl.
        by rewrite <- ?app_assoc.
    + exists evs0, c, (evs ++ executing_log [rtmpdump_command args io name]
                       ++ Popen c :: evs').
      split; [done|]. split; [done|]. split; [done|]. split.
      { rewrite !elem_of_app. right. right. by left. }
      rewrite Htrace. rewrite <- !app_assoc. simpl.
      by rewrite <- ?app_assoc.
  - intros [Hnone | (n & Hn & Hcase)].
    + by rewrite Hnone.
    + rewrite Hn. destruct Hcase as [Hk | [Hu | Hsz]].
      * rewrite Hk. by rewrite !andb_false_r.
      * rewrite Hu. by rewrite !andb_false_r.
      * rewrite (proj2 (Z.ltb_ge _ _) Hsz). done.
Qed.

(** * Piping to standard output *)

(** [utils.which] is imported from a module outside this one. *)
Variable which : string → option string.

(** [ExternalDownloader._mux_subtitles_command] *)
Definition _mux_subtitles_command (ffmpeg_binary' : string)
    (subtitle_url : option string) : M World (option (list string)) :=
  if String.eqb ffmpeg_binary' "" || negb (truthy_str subtitle_url) then
    ret None
  else if truthy_str (which ffmpeg_binary') then
    ret (Some [ffmpeg_binary'; "-y"; "-i"; "pipe:0"; "-i";
               default "" subtitle_url; "-c"; "copy"; "-c:s"; "srt";
               "-f"; "matroska"; "pipe:1"])
  else
    logger WARNING (ffmpeg_binary' +:+ " not found. Subtitles disabled.") ;;;
    logger WARNING "Set the path to ffmpeg using --ffmpeg" ;;;
    ret None.

(** [build_pipe_args], by class. *)
Definition build_pipe_args (io : IOContext) : M State (list string) :=
  s <~ get ;;
  match cls (self s) with
  | RTMPBackend args => ret ([rtmpdump_binary io] ++ args ++ ["-o"; "-"])
  | HDSBackend url bitrate _ =>
      in_world (adobehds_command_line url bitrate io ["--play"])
  | HLSBackend url long_probe =>
      in_world (ffmpeg_command_line url long_probe io
                  ["-vcodec"; "copy"; "-acodec"; "copy";
                   "-f"; "mpegts"; "pipe:1"])
  | HLSAudioBackend url long_probe =>
      in_world (ffmpeg_command_line url long_probe io
                  ["-map"; "0:4?"; "-f"; "mp3"; "pipe:1"])
  | WgetBackend url => ret (shared_wget_args (wget_binary io) "-" ++ [url])
  | YoutubeDLHDSBackend _ _ => raise (AttributeError "build_pipe_args")
  end.

(** [HLSBackend.build_pipe_with_subtitles_args] ([HLSAudioBackend] inherits
    it unchanged). *)
Definition build_pipe_with_subtitles_args (io : IOContext)
    (subtitle_url : string) : M State (list string) :=
  s <~ get ;;
  match cls (self s) with
  | HLSBackend url long_probe | HLSAudioBackend url long_probe =>
      in_world (ffmpeg_command_line url long_probe io
                  ["-thread_queue_size"; "512"; "-i"; subtitle_url;
                   "-vcodec"; "copy"; "-acodec"; "aac"; "-scodec"; "copy";
                   "-f"; "matroska"; "pipe:1"])
  | _ => raise (AttributeError "build_pipe_with_subtitles_args")
  end.

(** [ExternalDownloader.pipe] *)
Definition ExternalDownloader_pipe (io : IOContext)
    (subtitle_url : option string) : M State ResultCode :=
  args <~ build_pipe_args io ;;
  env <~ extra_environment io ;;
  subtitle_command <~
    in_world (_mux_subtitles_command (ffmpeg_binary io) subtitle_url) ;;
  let commands :=
    match subtitle_command with
    | Some (a :: c) => [args] ++ [a :: c]
    | _ => [args]
    end in
  external_downloader commands env.

(** [HDSBackend.cleanup_cookies] and [HDSBackend.pipe] *)
Definition cleanup_cookies : M World unit :=
  swallow_OSError (os_remove "Cookies.txt").

Definition HDSBackend_pipe (io : IOContext) (subtitle_url : option string)
  : M State ResultCode :=
  res <~ ExternalDownloader_pipe io subtitle_url ;;
  in_world cleanup_cookies ;;;
  ret res.

(** [HLSBackend.pipe] *)
Definition HLSBackend_pipe (io : IOContext) (subtitle_url : option string)
  : M State ResultCode :=
  args <~ (if truthy_str subtitle_url
           then build_pipe_with_subtitles_args io (default "" subtitle_url)
           else build_pipe_args io) ;;
  env <~ extra_environment io ;;
  external_downloader [args] env.

(** * More on process chains *)

(** The [Popen] calls of a chain that starts as [pids]: [i] is the index of
    the next command, [n] the length of the chain and [prev] the process
    started last. *)
Fixpoint popen_calls (n : nat) (env : option (gmap string string))
    (windows : bool) (i : nat) (prev : option pid)
    (commands : list (list string)) (pids : list pid) : list popen_call :=
  match commands, pids with
  | args :: commands', p :: pids' =>
      {| argv := args; stdin_from := prev;
         stdout_piped := negb (Nat.eqb i (n - 1)); popen_env := env;
         preexec_pdeathsig := Nat.eqb i 0 && negb windows |}
      :: popen_calls n env windows (S i) (Some p) commands' pids'
  | _, _ => []
  end.

Lemma platform_system_tick_emit (e : event) (w : World) :
  platform_system (tick (emit e w)) = platform_system w.
Proof. reflexivity. Qed.

Lemma last_snoc_pid (l : list pid) (p : pid) : last (l ++ [p]) = Some p.
Proof. apply last_snoc. Qed.

(** The spawning loop with the calls it makes. *)
Lemma start_loop_calls (commands : list (list string)) :
  ∀ (pids : list pid) (n : nat) env (i : nat) (processes : list pid) (w : World),
    spawns (popen_outcome w) (os_clock w) commands pids →
    start_loop n env i commands processes w
    = (Return (processes ++ pids),
       ticks (length commands)
         (emits (map Popen
                   (popen_calls n env (String.eqb (platform_system w) "Windows")
                      i (last processes) commands pids)) w)).
Proof.
  induction commands as [|args cs IH];
    intros [|p ps] n env i processes w H; simpl in H; try done.
  - simpl. unfold ret. by rewrite app_nil_r.
  - destruct H as [Hp Hs]. simpl. munfold. unfold Popen_. simpl.
    rewrite Hp.
    match goal with
    | |- context [tick (emit (Popen ?c) w)] => set (c0 := c)
    end.
    rewrite (IH ps n env (S i) (processes ++ [p]) (tick (emit (Popen c0) w)))
      by exact Hs.
    rewrite last_snoc_pid, platform_system_tick_emit, <- app_assoc. simpl.
    by rewrite emits_tick.
Qed.

Lemma popen_calls_length n env windows i prev commands pids :
  length pids = length commands →
  length (popen_calls n env windows i prev commands pids) = length commands.
Proof.
  revert i prev pids. induction commands as [|a cs IH];
    intros i prev [|p ps] Hlen; simpl in *; try done.
  f_equal. apply IH. lia.
Qed.

(** The [j]-th call of the chain. *)
Lemma popen_calls_lookup n env windows (commands : list (list string)) :
  ∀ (pids : list pid) (i : nat) (prev : option pid) (j : nat) (c : popen_call),
    length pids = length commands →
    popen_calls n env windows i prev commands pids !! j = Some c →
    commands !! j = Some (argv c)
    ∧ stdin_from c = match j with O => prev | S j' => pids !! j' end
    ∧ stdout_piped c = negb (Nat.eqb (i + j) (n - 1))
    ∧ popen_env c = env
    ∧ preexec_pdeathsig c = Nat.eqb (i + j) 0 && negb windows.
Proof.
  induction commands as [|a cs IH];
    intros [|p ps] i prev j c Hlen Hc; simpl in *; try done.
  destruct j as [|j]; simpl in Hc.
  - injection Hc as <-. simpl. by rewrite Nat.add_0_r.
  - destruct (IH ps (S i) (Some p) j c) as (Ha & Hin & Hout & Henv & Hpre);
      [lia|done|].
    replace (i + S j) with (S i + j) by lia.
    split; [done|]. split; [|done].
    rewrite Hin. by destruct j.
Qed.

Lemma start_process_calls (commands : list (list string)) (head : pid)
    (pids : list pid) (env : option (gmap string string)) (w : World) :
  spawns (popen_outcome w) (os_clock w) commands (head :: pids) →
  start_process commands env w
  = (Return head,
     ticks (length commands)
       (emits (map Popen
                 (popen_calls (length commands) env
                    (String.eqb (platform_system w) "Windows") 0 None
                    commands (head :: pids))
               ++ map CloseStdout (removelast (head :: pids))) w)).
Proof.
  intros H.
  unfold start_process. destruct commands as [|a cs] eqn:Hc; [done|].
  rewrite <- Hc in *. unfold bind.
  rewrite (start_loop_calls commands (head :: pids)) by exact H.
  rewrite close_stdouts_emits. rewrite app_nil_l. simpl last.
  by rewrite emits_ticks, <- emits_app.
Qed.

(** X2. A chain whose commands all start is wired as a pipeline: one
    [Popen] per command in order, each reading from the process started
    before it (the first from the caller's standard input), each writing to a
    pipe except the last, all with the same environment, and only the first
    with the parent-death hook (never on Windows); then the caller closes its
    end of every pipe, and the head process is returned. *)
Theorem start_process_pipeline_wiring
    (commands : list (list string)) (head : pid) (pids : list pid)
    (env : option (gmap string string)) (w : World) :
  spawns (popen_outcome w) (os_clock w) commands (head :: pids) →
  ∃ calls,
    start_process commands env w
    = (Return head,
       ticks (length commands)
         (emits (map Popen calls
                 ++ map CloseStdout (removelast (head :: pids))) w))
    ∧ length calls = length commands
    ∧ ∀ j c, calls !! j = Some c →
        commands !! j = Some (argv c)
        ∧ stdin_from c = match j with
                         | O => None
                         | S j' => (head :: pids) !! j'
                         end
        ∧ stdout_piped c = negb (Nat.eqb j (length commands - 1))
        ∧ popen_env c = env
        ∧ preexec_pdeathsig c
          = Nat.eqb j 0 && negb (String.eqb (platform_system w) "Windows").
Proof.
  intros H.
  pose proof (spawns_length _ _ _ _ H) as Hlen.
  exists (popen_calls (length commands) env
            (String.eqb (platform_system w) "Windows") 0 None commands
            (head :: pids)).
  split; [|split].
  - by apply start_process_calls.
  - by apply popen_calls_length.
  - intros j c Hc.
    by apply (popen_calls_lookup _ _ _ commands (head :: pids) 0 None j c).
Qed.

(** X1. A chain of any length whose commands all start and whose wait is
    not disturbed: [execute] returns [RD_SUCCESS] when the head process
    exits with 0 and [RD_FAILED] otherwise; besides logging it only starts
    the processes, closes the pipes and waits once, for the head; it signals
    no process. *)
Theorem execute_chain_completes
    (commands : list (list string)) (head : pid) (pids : list pid)
    (extra : option (gmap string string)) (w : World) :
  spawns (popen_outcome w) (os_clock w) commands (head :: pids) →
  wait_raises w (os_clock w + length commands) = None →
  ∃ evs,
    only_popens evs
    ∧ length evs = length commands
    ∧ execute commands extra w
      = (Return (if Z.eqb (exit_status w head) 0
                 then RD_SUCCESS else RD_FAILED),
         ticks (S (length commands))
           (emits (executing_log commands ++ evs
                   ++ map CloseStdout (removelast (head :: pids))
                   ++ [Wait head]) w)).
Proof.
  intros Hs Hw.
  assert (Hne : commands ≠ []) by (by destruct commands).
  pose proof (spawns_length _ _ _ _ Hs) as Hlen.
  exists (map Popen
            (popen_calls (length commands) (combined_env extra w)
               (String.eqb (platform_system w) "Windows") 0 None commands
               (head :: pids))).
  split; [|split].
  - apply Forall_forall. intros e He.
    apply list_elem_of_fmap in He as (c & -> & _). by exists c.
  - rewrite length_map. by apply popen_calls_length.
  - rewrite (execute_nonempty commands extra w Hne). cbv zeta.
    rewrite (start_process_calls commands head pids) by exact Hs.
    change (platform_system (emits (executing_log commands) w))
      with (platform_system w).
    world_norm.
    rewrite wait_returns
      by (rewrite wait_raises_ticks_emits, os_clock_ticks_emits; exact Hw).
    rewrite exit_status_ticks_emits. unfold exit_code_to_rd.
    world_done.
Qed.

(** X3. An interrupt that arrives while a command of the chain is being
    started is not turned into [RD_INCOMPLETE]: the handler reads the local
    variable [process], which is not bound yet, and [execute] raises
    [UnboundLocalError]; the processes already started are left alone. *)
Theorem execute_interrupted_while_starting
    (commands1 : list (list string)) (pids : list pid) (args : list string)
    (commands2 : list (list string))
    (extra : option (gmap string string)) (w : World) :
  spawns (popen_outcome w) (os_clock w) commands1 pids →
  popen_outcome w (os_clock w + length commands1) args
    = PopenRaises KeyboardInterrupt →
  ∃ evs, only_popens evs
    ∧ execute (commands1 ++ args :: commands2) extra w
      = (Raise (UnboundLocalError "process"),
         ticks (S (length commands1))
           (emits (executing_log (commands1 ++ args :: commands2) ++ evs) w)).
Proof.
  intros Hs Hf.
  set (commands := commands1 ++ args :: commands2).
  assert (Hne : commands ≠ []) by (subst commands; by destruct commands1).
  rewrite (execute_nonempty commands extra w Hne). cbv zeta.
  destruct (start_process_raises commands1 pids args commands2
              KeyboardInterrupt (combined_env extra w)
              (emits (executing_log commands) w)) as (evs & Hevs & Hrun).
  { exact Hs. }
  { exact Hf. }
  exists evs. split; [done|].
  fold commands in Hrun. rewrite Hrun.
  unfold execute_except, swallow_OSError, bind, raise, ret.
  world_done.
Qed.

(** The spawning loop when the command after [commands1] fails to start,
    with the calls it makes. *)
Lemma start_loop_raises_calls (commands1 : list (list string)) :
  ∀ (pids : list pid) (args : list string) (commands2 : list (list string))
    (e : exn) (n : nat) env (i : nat) (processes : list pid) (w : World),
    spawns (popen_outcome w) (os_clock w) commands1 pids →
    popen_outcome w (os_clock w + length commands1) args = PopenRaises e →
    start_loop n env i (commands1 ++ args :: commands2) processes w
    = (Raise e,
       ticks (S (length commands1))
         (emits (map Popen
                   (popen_calls n env (String.eqb (platform_system w) "Windows")
                      i (last processes) (commands1 ++ [args]) (pids ++ [0])))
            w)).
Proof.
  induction commands1 as [|a cs IH];
    intros [|p ps] args commands2 e n env i processes w H Hf;
    simpl in H; try done.
  - simpl. munfold. unfold Popen_. simpl.
    rewrite Nat.add_0_r in Hf. by rewrite Hf.
  - destruct H as [Hp Hs]. simpl. munfold. unfold Popen_. simpl.
    rewrite Hp.
    match goal with
    | |- context [tick (emit (Popen ?c) w)] => set (c0 := c)
    end.
    rewrite (IH ps args commands2 e n env (S i) (processes ++ [p])
               (tick (emit (Popen c0) w))).
    + rewrite last_snoc_pid, platform_system_tick_emit. simpl.
      by rewrite emits_tick.
    + exact Hs.
    + simpl. rewrite <- Hf. f_equal. simpl. lia.
Qed.

Lemma start_process_raises_calls (commands1 : list (list string))
    (pids : list pid) (args : list string) (commands2 : list (list string))
    (e : exn) (env : option (gmap string string)) (w : World) :
  spawns (popen_outcome w) (os_clock w) commands1 pids →
  popen_outcome w (os_clock w + length commands1) args = PopenRaises e →
  start_process (commands1 ++ args :: commands2) env w
  = (Raise e,
     ticks (S (length commands1))
       (emits (map Popen
                 (popen_calls (length (commands1 ++ args :: commands2)) env
                    (String.eqb (platform_system w) "Windows") 0 None
                    (commands1 ++ [args]) (pids ++ [0]))) w)).
Proof.
  intros Hs Hf. unfold start_process.
  destruct (commands1 ++ args :: commands2) eqn:Hc.
  { by destruct commands1. }
  rewrite <- Hc. unfold bind.
  by rewrite (start_loop_raises_calls commands1 pids args commands2 e).
Qed.

(** X4. When a command of the chain fails to start with an [OSError], the
    run consists of the two debug lines, one [Popen] per command up to and
    including the failing one, and the two error lines: the commands after it
    are never started, and the processes started before it are neither
    waited for nor signalled, nor are their pipes closed. *)
Theorem execute_launch_failure_abandons_chain
    (commands1 : list (list string)) (pids : list pid) (args : list string)
    (commands2 : list (list string)) (strerror : string)
    (extra : option (gmap string string)) (w : World) :
  spawns (popen_outcome w) (os_clock w) commands1 pids →
  popen_outcome w (os_clock w + length commands1) args
    = PopenRaises (OSError strerror) →
  ∃ calls,
    length calls = S (length commands1)
    ∧ (∀ j c, calls !! j = Some c →
         (commands1 ++ [args]) !! j = Some (argv c))
    ∧ execute (commands1 ++ args :: commands2) extra w
      = (Return RD_SUBPROCESS_EXECUTE_FAILED,
         ticks (S (length commands1))
           (emits (executing_log (commands1 ++ args :: commands2)
                   ++ map Popen calls
                   ++ [Log ERROR ("Failed to execute "
                         +:+ shell_command_string
                               (commands1 ++ args :: commands2));
                       Log ERROR strerror]) w)).
Proof.
  intros Hs Hf.
  pose proof (spawns_length _ _ _ _ Hs) as Hlen.
  set (commands := commands1 ++ args :: commands2).
  assert (Hne : commands ≠ []) by (subst commands; by destruct commands1).
  assert (Hlen' : length (pids ++ [0]) = length (commands1 ++ [args])).
  { rewrite !length_app. simpl. lia. }
  exists (popen_calls (length commands) (combined_env extra w)
            (String.eqb (platform_system w) "Windows") 0 None
            (commands1 ++ [args]) (pids ++ [0])).
  split; [|split].
  - rewrite popen_calls_length by done. rewrite length_app. simpl. lia.
  - intros j c Hc.
    by destruct (popen_calls_lookup _ _ _ (commands1 ++ [args]) (pids ++ [0])
                   0 None j c Hlen' Hc) as (Ha & _).
  - rewrite (execute_nonempty commands extra w Hne). cbv zeta.
    unfold commands.
    rewrite (start_process_raises_calls commands1 pids args commands2
               (OSError strerror)) by (exact Hs || exact Hf).
    change (platform_system
              (emits (executing_log (commands1 ++ args :: commands2)) w))
      with (platform_system w).
    unfold execute_except, bind, logger, modify, ret.
    world_done.
Qed.

(** X5. [combine_envs] leaves the world alone.  Without extra variables
    ([None] or an empty dictionary) it returns [None], so the child inherits
    the environment; otherwise it returns a dictionary in which every extra
    variable has the given value and every other variable has the value of
    [os.environ]. *)
Theorem combine_envs_overlays_environ
    (extra : option (gmap string string)) (w : World) :
  ∃ env,
    combine_envs extra w = (Return env, w)
    ∧ (extra = None ∨ extra = Some ∅ → env = None)
    ∧ (∀ m, extra = Some m → m ≠ ∅ →
         ∃ e, env = Some e
              ∧ ∀ k, e !! k = match m !! k with
                              | Some v => Some v
                              | None => environ w !! k
                              end).
Proof.
  unfold combine_envs, bind, get, ret.
  destruct extra as [m|]; simpl.
  - destruct (decide (m = ∅)) as [->|Hne].
    + rewrite bool_decide_eq_true_2 by done. simpl.
      eexists. split; [done|]. split; [done|]. by intros m [= <-] Hm.
    + rewrite bool_decide_eq_false_2 by done. simpl.
      eexists. split; [done|]. split.
      * intros [H|H]; [done|]. by injection H.
      * intros m' [= <-] _. eexists. split; [done|].
        intros k. rewrite lookup_union.
        destruct (m !! k), (environ w !! k); done.
  - eexists. split; [done|]. split; [done|]. by intros m H.
Qed.

(** * More on output names *)

(** X6. On the classes that force their extension (all but the two HLS
    classes), with an extension [e] and a non-empty explicit
    [io.outputfilename]: [output_filename] returns the explicit name with
    its old extension (as [os.path.splitext] cuts it) replaced by [e]; it
    warns exactly when there was an old extension different from [e], and
    otherwise returns silently (the name itself when it already ends in
    [e]).  Nothing is cached and the filesystem is not consulted. *)
Theorem output_filename_forces_extension
    (clip_title filename e : string) (io : IOContext) (s : State) :
  is_HLS (cls (self s)) = false →
  outputfilename io = Some filename →
  filename ≠ "" →
  ext (self s) = Some e →
  let basename := fst (splitext filename) in
  let old_ext := snd (splitext filename) in
  basename +:+ old_ext = filename
  ∧ (old_ext = e →
     output_filename clip_title io s = (Return filename, s))
  ∧ (old_ext = "" →
     output_filename clip_title io s = (Return (filename +:+ e), s))
  ∧ (old_ext ≠ "" → old_ext ≠ e →
     output_filename clip_title io s
     = (Return (basename +:+ e),
        {| self := self s;
           world := emit (Log WARNING
                            ("Unsupported extension " +:+ old_ext
                             +:+ ". Replacing it with " +:+ e))
                      (world s) |})).
Proof.
  intros Hcls Hname Hne Hext basename old_ext.
  pose proof (splitext_app filename) as Happ.
  fold basename old_ext in Happ.
  assert (Ht : truthy_str (outputfilename io) = true).
  { rewrite Hname. by apply truthy_str_Some. }
  assert (Hrun : output_filename clip_title io s
                 = in_world (replace_extension filename (Some e)) s).
  { unfold output_filename, _construct_output_filename, bind, get.
    destruct (cls (self s)); try discriminate Hcls;
      by rewrite Ht, Hname, Hext. }
  rewrite Hrun. unfold in_world, replace_extension.
  subst basename old_ext.
  destruct (splitext filename) as [basename old_ext]. simpl in *.
  destruct s as [self0 w]. simpl.
  split; [done|]. split; [|split].
  - intros ->. destruct (String.eqb_spec e "") as [->|He]; simpl.
    + unfold bind, ret. simpl. by rewrite Happ.
    + by rewrite bool_decide_eq_true_2.
  - intros ->. simpl. unfold bind, ret. simpl.
    rewrite str_app_nil_r in Happ. by rewrite Happ.
  - intros Hold Hdiff.
    destruct (String.eqb_spec old_ext "") as [|_]; [done|]. simpl.
    rewrite bool_decide_eq_false_2 by congruence. simpl.
    reflexivity.
Qed.

(** X7. On a class that forces its extension but was constructed without
    one ([ext] is [None]), every non-empty explicit [io.outputfilename] makes
    [output_filename] raise [TypeError] (after the warning, when the name has
    an extension); no name is returned or cached. *)
Theorem output_filename_without_extension_raises
    (clip_title filename : string) (io : IOContext) (s : State) :
  is_HLS (cls (self s)) = false →
  outputfilename io = Some filename →
  filename ≠ "" →
  ext (self s) = None →
  ∃ evs, only_logs evs
    ∧ output_filename clip_title io s
      = (Raise TypeError, {| self := self s; world := emits evs (world s) |}).
Proof.
  intros Hcls Hname Hne Hext.
  assert (Ht : truthy_str (outputfilename io) = true).
  { rewrite Hname. by apply truthy_str_Some. }
  assert (Hrun : output_filename clip_title io s
                 = in_world (replace_extension filename None) s).
  { unfold output_filename, _construct_output_filename, bind, get.
    destruct (cls (self s)); try discriminate Hcls;
      by rewrite Ht, Hname, Hext. }
  rewrite Hrun. unfold in_world, replace_extension.
  destruct (splitext filename) as [basename old_ext].
  rewrite bool_decide_eq_false_2 by done. rewrite orb_true_r.
  destruct (String.eqb old_ext ""); simpl.
  - exists []. split; [constructor|done].
  - eexists [_]. split; [|done]. repeat constructor. by eexists _, _.
Qed.

(** X8. [next_available_filename] returns on every filesystem, after
    testing at most [size fs + 2] names.  The test is made on the re-encoded
    name [filename.encode(enc, 'replace')]: the re-encoding of the name
    returned does not exist, the re-encodings of all names tried before it
    exist, and these names are logged once each.  When the proposed name
    survives the re-encoding unchanged, the name returned itself does not
    exist and all names tried before it exist.  The name returned is the
    proposed one or differs from it only by [-k] inserted between the parts
    [os.path.splitext] cuts it in (directory and extension are kept). *)
Theorem next_available_filename_total (proposed : string) (w : World) :
  ∃ k,
    (k ≤ S (size (fs w)))%nat
    ∧ next_available_filename proposed w
      = (Return (candidate proposed k),
         emits (map (λ j, exists_log (candidate proposed j)) (seq 0 k)) w)
    ∧ path_exists w (tested_path w (candidate proposed k)) = false
    ∧ (∀ j, j < k →
         path_exists w (tested_path w (candidate proposed j)) = true)
    ∧ (tested_path w proposed = proposed →
       path_exists w (candidate proposed k) = false
       ∧ ∀ j, j < k → path_exists w (candidate proposed j) = true)
    ∧ candidate proposed k
      = fst (splitext proposed)
        +:+ (if Nat.eqb k 0 then "" else "-" +:+ str_nat k)
        +:+ snd (splitext proposed).
Proof.
  destruct (next_available_filename_bounded proposed w)
    as (k & Hk & Hfree & Hmin & Hrun).
  exists k. split; [done|]. split; [done|]. split; [done|].
  split; [done|]. split.
  - intros Hp. split.
    + by rewrite <- (tested_path_candidate w proposed k Hp).
    + intros j Hj. rewrite <- (tested_path_candidate w proposed j Hp).
      by apply Hmin.
  - destruct k as [|k]; simpl.
    + by rewrite str_app_nil_l, splitext_app.
    + done.
Qed.


(** X9. [output_filename] consults the filesystem but never changes it,
    starts or signals no process, and leaves the class, the extension and the
    capability set of the instance alone: whatever it returns or raises, the
    new world is the old one with some log lines added. *)
Theorem output_filename_only_logs_and_caches (clip_title : string)
    (io : IOContext) (s : State) :
  ∃ evs,
    only_logs evs
    ∧ world (snd (output_filename clip_title io s)) = emits evs (world s)
    ∧ fs (world (snd (output_filename clip_title io s))) = fs (world s)
    ∧ os_clock (world (snd (output_filename clip_title io s)))
      = os_clock (world s)
    ∧ cls (self (snd (output_filename clip_title io s))) = cls (self s)
    ∧ ext (self (snd (output_filename clip_title io s))) = ext (self s)
    ∧ io_capabilities (self (snd (output_filename clip_title io s)))
      = io_capabilities (self s).
Proof.
  destruct (output_filename_run clip_title io s)
    as (r & self1 & evs & Hrun & Hevs & Hcls & Hext & Hcaps & _).
  exists evs. rewrite Hrun. simpl.
  by rewrite fs_emits, os_clock_emits.
Qed.

(** X10. Once [output_filename] has returned a name, every later call
    with the same title and I/O context on that instance returns the same
    name and leaves the instance as it is, in any world (so the name passed
    to the external program and the name that is logged agree). *)
Theorem output_filename_requery_is_stable (clip_title name : string)
    (io : IOContext) (s s1 : State) :
  output_filename clip_title io s = (Return name, s1) →
  ∀ w', ∃ evs,
    only_logs evs
    ∧ output_filename clip_title io {| self := self s1; world := w' |}
      = (Return name, {| self := self s1; world := emits evs w' |}).
Proof.
  intros Hname.
  destruct (output_filename_run clip_title io s)
    as (r & self1 & evs & Hrun & _ & _ & _ & _ & Hagain).
  rewrite Hrun in Hname. injection Hname as -> <-. simpl.
  by apply Hagain.
Qed.

(** * More on [save_stream] *)

Definition is_external (c : Class) : bool :=
  match c with
  | YoutubeDLHDSBackend _ _ => false
  | _ => true
  end.

(** Finds an element in a list built from conses and appends. *)
Ltac elem_search :=
  solve [ apply list_elem_of_here
        | apply list_elem_of_further; elem_search
        | apply elem_of_app; right; elem_search ].

(** [build_args] resolves the output name once and puts it on the command
    line. *)
Lemma build_args_run (clip_title name : string) (io : IOContext)
    (s s1 : State) :
  is_external (cls (self s)) = true →
  output_filename clip_title io s = (Return name, s1) →
  ∃ args,
    build_args clip_title io s = (Return args, s1)
    ∧ (name ∈ args ∨ "file:" +:+ name ∈ args).
Proof.
  intros Hcls Hname. unfold build_args, bind, get.
  destruct s1 as [self1 w1].
  destruct (cls (self s)) eqn:Hc; try discriminate Hcls;
    rewrite Hname; unfold in_world, adobehds_command_line,
      ffmpeg_command_line, bind, get, ret; simpl;
    (eexists; split; [reflexivity|]).
  all: first [left; elem_search | right; elem_search].
Qed.

(** [extra_environment] at most logs. *)
Lemma extra_environment_run (io : IOContext) (s : State) :
  ∃ env evs, only_logs evs
    ∧ extra_environment io s
      = (Return env, {| self := self s; world := emits evs (world s) |}).
Proof.
  unfold extra_environment, bind, get, ret, in_world, logger, modify.
  destruct s as [self0 w]. simpl.
  destruct (cls self0);
    try (eexists _, []; split; [constructor|reflexivity]).
  destruct (truthy_str (proxy io));
    [|eexists _, []; split; [constructor|reflexivity]].
  destruct (bool_decide (is_Some (environ w !! "https_proxy"))).
  - eexists _, [_]. split; [|reflexivity].
    repeat constructor. by eexists _, _.
  - eexists _, []. split; [constructor|reflexivity].
Qed.

(** The completion line of [log_output_file]. *)
Definition saved_log (outputfile : string) : list event :=
  if negb (String.eqb outputfile "") && negb (String.eqb outputfile "-")
  then [Log INFO ("Stream saved to " +:+ outputfile)] else [].

Lemma log_output_file_done (outputfile : string) (w : World) :
  log_output_file outputfile true w
  = (Return tt, emits (saved_log outputfile) w).
Proof.
  unfold log_output_file, saved_log.
  by destruct (negb (String.eqb outputfile "")
               && negb (String.eqb outputfile "-")).
Qed.

(** X11. [ExternalDownloader.save_stream] on any of the five external
    classes, when the output name resolves to [name]: it runs a chain of
    exactly one command, which carries [name] (as an argument of its own or
    as [file:name]), returns what that run returns or raises what it raises,
    and logs [Stream saved to name] only when the run returned
    [RD_SUCCESS]; before the run it only logs. *)
Theorem ExternalDownloader_save_stream_runs_one_command
    (clip_title name : string) (io : IOContext) (s s1 : State) :
  is_external (cls (self s)) = true →
  output_filename clip_title io s = (Return name, s1) →
  ∃ args env evs,
    only_logs evs
    ∧ (name ∈ args ∨ "file:" +:+ name ∈ args)
    ∧ ExternalDownloader_save_stream clip_title io s
      = match execute [args] env (emits evs (world s)) with
        | (Return retcode, w') =>
            (Return retcode,
             {| self := self s1;
                world := if bool_decide (retcode = RD_SUCCESS)
                         then emits (saved_log name) w' else w' |})
        | (Raise e, w') => (Raise e, {| self := self s1; world := w' |})
        end.
Proof.
  intros Hcls Hname.
  destruct (build_args_run clip_title name io s s1 Hcls Hname)
    as (args & Hargs & Hin).
  destruct (output_filename_run clip_title io s)
    as (r & self1 & evs0 & Hrun & Hevs0 & _ & _ & _ & Hagain).
  rewrite Hrun in Hname. injection Hname as -> <-.
  specialize (Hagain name eq_refl).
  destruct (extra_environment_run io
              {| self := self1; world := emits evs0 (world s) |})
    as (env & evs1 & Hevs1 & Henv).
  simpl in Henv.
  destruct (Hagain (emits evs1 (emits evs0 (world s))))
    as (evs2 & Hevs2 & Hout).
  destruct (log_output_file_run name false) as (evs3 & Hevs3 & Hlog).
  exists args, env, (evs0 ++ evs1 ++ evs2 ++ evs3).
  split; [by repeat (apply Forall_app; split)|]. split; [done|].
  unfold ExternalDownloader_save_stream, bind at 1. rewrite Hargs.
  unfold bind at 1. rewrite Henv.
  unfold bind at 1. rewrite Hout.
  unfold in_world, external_downloader, in_world, bind. simpl.
  rewrite Hlog. simpl. rewrite <- !emits_app.
  destruct (execute [args] env (emits (evs0 ++ evs1 ++ evs2 ++ evs3) (world s)))
    as [[retcode|e] w']; [|reflexivity].
  simpl. destruct (bool_decide (retcode = RD_SUCCESS)); [|reflexivity].
  simpl. by rewrite log_output_file_done.
Qed.

(** X12. [WgetBackend] and the proxy: when [https_proxy] is already in
    [os.environ], the requested proxy is dropped with one warning and the
    child inherits the environment unchanged; when it is not, nothing is
    logged and the child gets a copy of [os.environ] in which only
    [https_proxy] is added, with the requested value.  Without a proxy
    request nothing is logged and the environment is inherited. *)
Theorem WgetBackend_proxy_environment (url : string) (io : IOContext)
    (s : State) :
  cls (self s) = WgetBackend url →
  (truthy_str (proxy io) = false →
     extra_environment io s = (Return None, s))
  ∧ (truthy_str (proxy io) = true →
     is_Some (environ (world s) !! "https_proxy") →
     extra_environment io s
     = (Return None,
        {| self := self s;
           world := emit (Log WARNING
             "--proxy ignored because https_proxy environment variable exists")
             (world s) |}))
  ∧ (∀ p, proxy io = Some p → p ≠ "" →
     environ (world s) !! "https_proxy" = None →
     ∃ extra env,
       extra_environment io s = (Return (Some extra), s)
       ∧ combine_envs (Some extra) (world s) = (Return (Some env), world s)
       ∧ env !! "https_proxy" = Some p
       ∧ ∀ k, k ≠ "https_proxy" → env !! k = environ (world s) !! k).
Proof.
  intros Hcls. unfold extra_environment, bind, get, ret. rewrite Hcls.
  destruct s as [self0 w]. simpl.
  split; [|split].
  - by intros ->.
  - intros -> Hsome. by rewrite bool_decide_eq_true_2.
  - intros p Hp Hne Hnone. rewrite Hp.
    rewrite truthy_str_Some by done.
    rewrite bool_decide_eq_false_2 by (rewrite Hnone; by intros [? ?]).
    eexists _, _. split; [reflexivity|].
    unfold combine_envs, bind, get, ret. simpl.
    rewrite bool_decide_eq_false_2.
    2:{ intros H. apply (f_equal (λ m : gmap string string, m !! "https_proxy")) in H.
        by rewrite lookup_singleton_eq, lookup_empty in H. }
    simpl. split; [reflexivity|]. split.
    + rewrite lookup_union, lookup_singleton_eq, Hnone. done.
    + intros k Hk. rewrite lookup_union, lookup_singleton_ne by done.
      by destruct (environ w !! k).
Qed.

(** X13. [HDSBackend.save_stream] takes the shortcut in no other case
    than the one of C1: without [io.resume], for the name ['-'], when the
    resolved name is not an existing regular file, or while a fragment of the
    flavor is in the working directory, it is the run of
    [ExternalDownloader.save_stream] after the name is resolved. *)
Theorem HDSBackend_save_stream_downloads_otherwise
    (clip_title : string) (io : IOContext) (s s1 : State)
    (url : string) (bitrate : option Z) (flavor_id output_name : string) :
  cls (self s) = HDSBackend url bitrate flavor_id →
  output_filename clip_title io s = (Return output_name, s1) →
  resume io = false ∨ output_name = "-"
  ∨ isfile (world s) output_name = false
  ∨ fragments_exist flavor_id (world s) = true →
  HDSBackend_save_stream clip_title io s
  = ExternalDownloader_save_stream clip_title io s1.
Proof.
  intros Hcls Hname Hcase.
  destruct (output_filename_run clip_title io s)
    as (r & self1 & evs & Hrun & Hevs & _).
  rewrite Hrun in Hname. injection Hname as -> <-.
  unfold HDSBackend_save_stream, bind, get. rewrite Hcls, Hrun. simpl.
  rewrite isfile_emits, fragments_exist_emits.
  destruct Hcase as [-> | [-> | [-> | ->]]]; simpl;
    rewrite ?andb_false_r; done.
Qed.

(** X15. Without [io.resume], [RTMPBackend.save_stream] never looks at
    the size of the output file and never removes it: it is the run of
    [ExternalDownloader.save_stream] after the name is resolved. *)
Theorem RTMPBackend_save_stream_without_resume
    (clip_title name : string) (io : IOContext) (s s1 : State) :
  resume io = false →
  output_filename clip_title io s = (Return name, s1) →
  RTMPBackend_save_stream clip_title io s
  = ExternalDownloader_save_stream clip_title io s1.
Proof.
  intros Hresume Hname.
  rewrite RTMPBackend_save_stream_steps. unfold bind at 1. rewrite Hname.
  unfold bind at 1. rewrite cleanup_small_file_run, Hresume. simpl.
  by destruct (fs (world s1) !! name).
Qed.

(** * More on the registry *)

(** X16. [parse_backends] of a concatenation is [parse_backends] of the
    first list followed by those names of [parse_backends] of the second that
    the first did not already give. *)
Theorem parse_backends_app (l1 l2 : list string) (w : World) :
  ∃ r1 r2,
    fst (parse_backends l1 w) = Return r1
    ∧ fst (parse_backends l2 w) = Return r2
    ∧ fst (parse_backends (l1 ++ l2) w)
      = Return (r1 ++ filter (λ x, x ∉ r1) r2).
Proof.
  clear. eexists _, _. rewrite !parse_backends_value. simpl.
  split; [reflexivity|]. split; [reflexivity|]. f_equal.
  rewrite filter_app.
  generalize (filter (λ x, x ∈ default_order) l1) as a.
  generalize (filter (λ x, x ∈ default_order) l2) as b.
  intros b a. induction a as [|x a IH]; simpl.
  - symmetry. apply filter_all. intros y _. apply not_elem_of_nil.
  - f_equal. rewrite IH, filter_app. f_equal.
    rewrite list_filter_filter. apply list_filter_iff.
    intros y. rewrite elem_of_cons, list_elem_of_filter.
    split.
    + intros [Hne Hy] [->|[_ Hin]]; done.
    + intros Hy. split.
      * intros ->. apply Hy. by left.
      * intros Hin. apply Hy.
        destruct (decide (y = x)) as [->|Hne]; [by left|].
        right. by split.
Qed.

(** * Properties of piping *)

Local Arguments external_downloader : simpl never.

(** [build_pipe_args] on an external class returns a command line and
    changes nothing. *)
Lemma build_pipe_args_run (io : IOContext) (s : State) :
  is_external (cls (self s)) = true →
  ∃ args, build_pipe_args io s = (Return args, s).
Proof.
  intros Hcls. unfold build_pipe_args, bind, get, ret, in_world,
    adobehds_command_line, ffmpeg_command_line, bind, get, ret.
  destruct s as [self0 w]. simpl in *.
  destruct (cls self0); try discriminate Hcls; by eexists.
Qed.

(** The command that muxes the subtitles into the stream. *)
Definition mux_command (ffmpeg_binary' subtitle_url : string) : list string :=
  [ffmpeg_binary'; "-y"; "-i"; "pipe:0"; "-i"; subtitle_url;
   "-c"; "copy"; "-c:s"; "srt"; "-f"; "matroska"; "pipe:1"].

(** X17. [ExternalDownloader.pipe] on an external class runs a chain of
    one or two commands.  The second command, the ffmpeg call that muxes the
    subtitles, is added exactly when [io.ffmpeg_binary] is non-empty, a
    non-empty subtitle URL is given and [which] finds the binary.  When the
    binary is configured and subtitles are asked for but [which] finds
    nothing, two warnings are logged and the stream is piped without
    subtitles.  Before the run it only logs. *)
Theorem ExternalDownloader_pipe_chain (io : IOContext)
    (subtitle_url : option string) (s : State) :
  is_external (cls (self s)) = true →
  ∃ args env evs,
    only_logs evs
    ∧ build_pipe_args io s = (Return args, s)
    ∧ (ffmpeg_binary io = "" ∨ truthy_str subtitle_url = false →
       ExternalDownloader_pipe io subtitle_url s
       = external_downloader [args] env
           {| self := self s; world := emits evs (world s) |})
    ∧ (ffmpeg_binary io ≠ "" → truthy_str subtitle_url = true →
       truthy_str (which (ffmpeg_binary io)) = true →
       ExternalDownloader_pipe io subtitle_url s
       = external_downloader
           [args; mux_command (ffmpeg_binary io) (default "" subtitle_url)] env
           {| self := self s; world := emits evs (world s) |})
    ∧ (ffmpeg_binary io ≠ "" → truthy_str subtitle_url = true →
       truthy_str (which (ffmpeg_binary io)) = false →
       ExternalDownloader_pipe io subtitle_url s
       = external_downloader [args] env
           {| self := self s;
              world := emits
                (evs ++ [Log WARNING (ffmpeg_binary io
                                      +:+ " not found. Subtitles disabled.");
                         Log WARNING "Set the path to ffmpeg using --ffmpeg"])
                (world s) |}).
Proof.
  intros Hcls.
  destruct (build_pipe_args_run io s Hcls) as (args & Hargs).
  destruct (extra_environment_run io s) as (env & evs & Hevs & Henv).
  exists args, env, evs. split; [done|]. split; [done|].
  assert (Hpipe : ExternalDownloader_pipe io subtitle_url s
            = (subtitle_command <~
                 in_world (_mux_subtitles_command (ffmpeg_binary io)
                             subtitle_url) ;;
               external_downloader
                 match subtitle_command with
                 | Some (a :: c) => [args] ++ [a :: c]
                 | _ => [args]
                 end env)
                {| self := self s; world := emits evs (world s) |}).
  { unfold ExternalDownloader_pipe. unfold bind at 1. rewrite Hargs.
    unfold bind at 1. by rewrite Henv. }
  rewrite Hpipe. unfold bind, in_world, _mux_subtitles_command. simpl.
  split; [|split].
  - intros [-> | ->]; simpl; rewrite ?orb_true_r; reflexivity.
  - intros Hbin Hsub Hwhich. rewrite Hsub, Hwhich.
    destruct (String.eqb_spec (ffmpeg_binary io) ""); [done|]. simpl.
    reflexivity.
  - intros Hbin Hsub Hwhich. rewrite Hsub, Hwhich.
    destruct (String.eqb_spec (ffmpeg_binary io) ""); [done|]. simpl.
    unfold bind, logger, modify, ret. simpl.
    by rewrite emits_app.
Qed.

(** [cleanup_cookies] never raises; it removes [Cookies.txt] when that is
    a regular file whose removal is permitted, and otherwise changes
    nothing. *)
Lemma cleanup_cookies_run (w : World) :
  cleanup_cookies w
  = (Return tt,
     match fs w !! "Cookies.txt" with
     | Some n =>
         if unlinkable n && bool_decide (kind n = RegularFile)
         then emit (Unlinked "Cookies.txt")
                (set_fs (delete "Cookies.txt" (fs w)) w)
         else w
     | None => w
     end).
Proof.
  unfold cleanup_cookies, swallow_OSError, os_remove.
  destruct (fs w !! "Cookies.txt") as [n|]; [|done].
  destruct (kind n), (unlinkable n); done.
Qed.

(** X18. [HDSBackend.pipe] returns the result of [ExternalDownloader.pipe]
    unchanged, whatever that result is, and afterwards [Cookies.txt] is gone
    if it was a regular file that may be removed; a cookie file that is
    missing or cannot be removed changes nothing and nothing is raised.  When
    the run raises instead of returning, the cookie file is not touched. *)
Theorem HDSBackend_pipe_cleans_cookies (io : IOContext)
    (subtitle_url : option string) (s : State) :
  (∀ res s1, ExternalDownloader_pipe io subtitle_url s = (Return res, s1) →
     ∃ w2,
       HDSBackend_pipe io subtitle_url s
       = (Return res, {| self := self s1; world := w2 |})
       ∧ (∀ n, fs (world s1) !! "Cookies.txt" = Some n →
               kind n = RegularFile → unlinkable n = true →
               fs w2 = delete "Cookies.txt" (fs (world s1))
               ∧ trace w2 = trace (world s1) ++ [Unlinked "Cookies.txt"])
       ∧ (fs (world s1) !! "Cookies.txt" = None
          ∨ (∃ n, fs (world s1) !! "Cookies.txt" = Some n
                  ∧ (kind n = Directory ∨ unlinkable n = false)) →
          w2 = world s1))
  ∧ (∀ e s1, ExternalDownloader_pipe io subtitle_url s = (Raise e, s1) →
       HDSBackend_pipe io subtitle_url s = (Raise e, s1)).
Proof.
  unfold HDSBackend_pipe. split.
  - intros res s1 Hrun. unfold bind at 1. rewrite Hrun.
    unfold bind, in_world, ret. rewrite cleanup_cookies_run.
    eexists. split; [reflexivity|]. split.
    + intros n Hn Hk Hu. rewrite Hn, Hk, Hu. simpl. done.
    + intros [Hnone | (n & Hn & [Hk | Hu])].
      * by rewrite Hnone.
      * rewrite Hn, Hk. by rewrite andb_false_r.
      * by rewrite Hn, Hu.
  - intros e s1 Hrun. unfold bind at 1. by rewrite Hrun.
Qed.

(** The part of an ffmpeg command line before the output options. *)
Definition ffmpeg_input_args (url : string) (long_probe : bool)
    (io : IOContext) (debug : bool) : list string :=
  [ffmpeg_binary io; "-y"; "-loglevel"; if debug then "info" else "error";
   "-stats"; "-thread_queue_size"; "512"]
  ++ _probe_args long_probe ++ ["-i"; url]
  ++ _duration_arg (download_limits io).

(** X19. [HLSBackend.pipe] (also on [HLSAudioBackend]) always runs a
    chain of one ffmpeg command in the inherited environment and logs nothing
    before it; [which] is not consulted and no separate muxing process is
    added.  With a non-empty subtitle URL the command reads the subtitles as
    a second input and writes a Matroska stream, on the audio class as on the
    video class; without one it writes MPEG-TS on [HLSBackend] and MP3 of
    stream [0:4?] on [HLSAudioBackend]. *)
Theorem HLSBackend_pipe_single_command (io : IOContext)
    (subtitle_url : option string) (s : State) (url : string)
    (long_probe audio : bool) :
  cls (self s) = (if audio then HLSAudioBackend url long_probe
                  else HLSBackend url long_probe) →
  let input := ffmpeg_input_args url long_probe io (debug_enabled (world s)) in
  (truthy_str subtitle_url = true →
     HLSBackend_pipe io subtitle_url s
     = external_downloader
         [input ++ ["-thread_queue_size"; "512"; "-i"; default "" subtitle_url;
                    "-vcodec"; "copy"; "-acodec"; "aac"; "-scodec"; "copy";
                    "-f"; "matroska"; "pipe:1"]] None s)
  ∧ (truthy_str subtitle_url = false →
     HLSBackend_pipe io subtitle_url s
     = external_downloader
         [input ++ (if audio
                    then ["-map"; "0:4?"; "-f"; "mp3"; "pipe:1"]
                    else ["-vcodec"; "copy"; "-acodec"; "copy";
                          "-f"; "mpegts"; "pipe:1"])] None s).
Proof.
  intros Hcls input. subst input.
  unfold HLSBackend_pipe, build_pipe_with_subtitles_args, build_pipe_args,
    extra_environment, ffmpeg_command_line, ffmpeg_input_args.
  destruct s as [self0 w]. simpl in *.
  split; intros ->; unfold bind, get, ret, in_world; simpl; rewrite Hcls;
    destruct audio; simpl; rewrite Hcls; simpl;
    by rewrite <- ?app_assoc.
Qed.

(** * The fragment pattern *)

Fixpoint all_digits (s : string) : bool :=
  match s with
  | EmptyString => true
  | String a s' => is_digit a && all_digits s'
  end.

Definition starts_with_digit (s : string) : bool :=
  match s with
  | String a _ => is_digit a
  | EmptyString => false
  end.

Lemma str_app_assoc (s1 s2 s3 : string) :
  (s1 +:+ s2) +:+ s3 = s1 +:+ s2 +:+ s3.
Proof.
  induction s1 as [|a s1 IH]; [done|]. by rewrite !str_app_cons, IH.
Qed.

Lemma strip_prefix_spec (pre s r : string) :
  strip_prefix pre s = Some r ↔ s = pre +:+ r.
Proof.
  revert s. induction pre as [|a pre IH]; intros s; simpl.
  - rewrite str_app_nil_l. split; [by intros [= ->]|by intros ->].
  - destruct s as [|b s]; [by rewrite str_app_cons|].
    rewrite str_app_cons. destruct (Ascii.eqb_spec a b) as [->|Hne].
    + rewrite IH. split; [by intros ->|by intros [= ->]].
    + split; [done|]. intros [= <- _]. done.
Qed.

(** [skip_digits] removes the longest run of digits. *)
Lemma skip_digits_app (ds r : string) :
  all_digits ds = true → starts_with_digit r = false →
  skip_digits (ds +:+ r) = r.
Proof.
  intros Hds Hr. induction ds as [|a ds IH].
  - rewrite str_app_nil_l. destruct r as [|b r]; [done|].
    simpl in *. by rewrite Hr.
  - simpl in Hds. apply andb_true_iff in Hds as [Ha Hds].
    rewrite str_app_cons. simpl. rewrite Ha. by apply IH.
Qed.

Lemma skip_digits_split (s : string) :
  ∃ ds, all_digits ds = true ∧ s = ds +:+ skip_digits s
        ∧ starts_with_digit (skip_digits s) = false.
Proof.
  induction s as [|a s (ds & Hds & Hs & Hr)].
  - by exists "".
  - simpl. destruct (is_digit a) eqn:Ha.
    + exists (String a ds). simpl. rewrite Ha, Hds.
      split; [done|]. split; [|done]. by rewrite str_app_cons, <- Hs.
    + exists "". simpl. by rewrite Ha.
Qed.

Lemma digits1_spec (s r : string) :
  digits1 s = Some r
  ↔ ∃ ds, ds ≠ "" ∧ all_digits ds = true ∧ s = ds +:+ r
          ∧ starts_with_digit r = false.
Proof.
  split.
  - destruct s as [|a s]; [done|]. simpl.
    destruct (is_digit a) eqn:Ha; [|done]. intros [= <-].
    destruct (skip_digits_split s) as (ds & Hds & Hs & Hr).
    exists (String a ds). simpl. rewrite Ha, Hds.
    split; [done|]. split; [done|]. split; [|done].
    by rewrite str_app_cons, <- Hs.
  - intros (ds & Hne & Hds & -> & Hr).
    destruct ds as [|a ds]; [done|]. simpl in Hds.
    apply andb_true_iff in Hds as [Ha Hds].
    rewrite str_app_cons. simpl. rewrite Ha. f_equal.
    by apply skip_digits_app.
Qed.

(** The part of the pattern after [.*]. *)
Lemma fragment_suffix_spec (flavor_id s : string) :
  fragment_suffix flavor_id s = true
  ↔ ∃ seg frag tail,
      s = "_" +:+ flavor_id +:+ "_Seg" +:+ seg +:+ "-Frag" +:+ frag +:+ tail
      ∧ seg ≠ "" ∧ all_digits seg = true
      ∧ frag ≠ "" ∧ all_digits frag = true
      ∧ (tail = "" ∨ tail = String "010" "").
Proof.
  unfold fragment_suffix. split.
  - destruct (strip_prefix _ s) as [s1|] eqn:H1; [|done].
    destruct (digits1 s1) as [s2|] eqn:H2; [|done].
    destruct (strip_prefix "-Frag" s2) as [s3|] eqn:H3; [|done].
    destruct (digits1 s3) as [rest|] eqn:H4; [|done].
    intros Hrest.
    apply strip_prefix_spec in H1. apply strip_prefix_spec in H3.
    apply digits1_spec in H2 as (seg & Hseg & Hsegd & -> & _).
    apply digits1_spec in H4 as (frag & Hfrag & Hfragd & -> & _).
    exists seg, frag, rest. subst s2.
    split.
    { rewrite H1. rewrite !str_app_assoc. reflexivity. }
    repeat split; try done.
    apply orb_true_iff in Hrest as [Hr|Hr]; apply String.eqb_eq in Hr; auto.
  - intros (seg & frag & tail & -> & Hseg & Hsegd & Hfrag & Hfragd & Htail).
    assert (H1 : strip_prefix ("_" +:+ flavor_id +:+ "_Seg")
                   ("_" +:+ flavor_id +:+ "_Seg" +:+ seg +:+ "-Frag"
                    +:+ frag +:+ tail)
                 = Some (seg +:+ "-Frag" +:+ frag +:+ tail)).
    { apply strip_prefix_spec. by rewrite !str_app_assoc. }
    rewrite H1.
    assert (H2 : digits1 (seg +:+ "-Frag" +:+ frag +:+ tail)
                 = Some ("-Frag" +:+ frag +:+ tail)).
    { apply digits1_spec. exists seg. done. }
    rewrite H2.
    assert (H3 : strip_prefix "-Frag" ("-Frag" +:+ frag +:+ tail)
                 = Some (frag +:+ tail)).
    { by apply strip_prefix_spec. }
    rewrite H3.
    assert (H4 : digits1 (frag +:+ tail) = Some tail).
    { apply digits1_spec. exists frag. repeat split; try done.
      by destruct Htail as [-> | ->]. }
    rewrite H4. by destruct Htail as [-> | ->].
Qed.

Lemma fragment_match_nil (flavor_id : string) :
  fragment_match flavor_id "" = fragment_suffix flavor_id "" || false.
Proof. reflexivity. Qed.

Lemma fragment_match_cons (flavor_id : string) (a : ascii) (x : string) :
  fragment_match flavor_id (String a x)
  = fragment_suffix flavor_id (String a x)
    || (if Ascii.eqb a "010" then false else fragment_match flavor_id x).
Proof. reflexivity. Qed.

(** The whole pattern: a name matches if and only if it has the form
    [<prefix>_<flavor>_Seg<digits>-Frag<digits>]. *)
Lemma fragment_match_spec (flavor_id x : string) :
  fragment_match flavor_id x = true
  ↔ ∃ pre seg frag tail,
      x = pre +:+ "_" +:+ flavor_id +:+ "_Seg" +:+ seg +:+ "-Frag"
          +:+ frag +:+ tail
      ∧ contains_char "010" pre = false
      ∧ seg ≠ "" ∧ all_digits seg = true
      ∧ frag ≠ "" ∧ all_digits frag = true
      ∧ (tail = "" ∨ tail = String "010" "").
Proof.
  induction x as [|a x IH].
  - rewrite fragment_match_nil, orb_false_r, fragment_suffix_spec. split.
    + intros (seg & frag & tail & Hx & H). exists "", seg, frag, tail.
      by rewrite str_app_nil_l.
    + intros (pre & seg & frag & tail & Hx & _).
      destruct pre; [|by rewrite str_app_cons in Hx].
      by rewrite str_app_nil_l in Hx.
  - rewrite fragment_match_cons, orb_true_iff, fragment_suffix_spec. split.
    + intros [(seg & frag & tail & Hx & H) | Hrest].
      * exists "", seg, frag, tail. by rewrite str_app_nil_l.
      * destruct (Ascii.eqb_spec a "010") as [->|Hne]; [done|].
        apply IH in Hrest as (pre & seg & frag & tail & -> & Hpre & H).
        exists (String a pre), seg, frag, tail.
        rewrite str_app_cons. split; [done|]. split; [|done].
        simpl. by destruct (Ascii.eqb_spec a "010").
    + intros (pre & seg & frag & tail & Hx & Hpre & H).
      destruct pre as [|b pre].
      * left. exists seg, frag, tail. by rewrite str_app_nil_l in Hx.
      * right. rewrite str_app_cons in Hx. injection Hx as -> ->.
        simpl in Hpre. destruct (Ascii.eqb_spec b "010") as [|Hne]; [done|].
        apply IH. by exists pre, seg, frag, tail.
Qed.

(** X14. [fragments_exist] answers true exactly when the working
    directory lists a name of the form
    [<prefix>_<flavor>_Seg<digits>-Frag<digits>], where the prefix is any
    text without a newline (it may be empty), both digit runs are non-empty
    runs of [0]-[9], the flavor is taken literally, and one trailing newline
    is tolerated. *)
Theorem fragments_exist_spec (flavor_id : string) (w : World) :
  fragments_exist flavor_id w = true
  ↔ ∃ x pre seg frag tail,
      x ∈ cwd_listing w
      ∧ x = pre +:+ "_" +:+ flavor_id +:+ "_Seg" +:+ seg +:+ "-Frag"
            +:+ frag +:+ tail
      ∧ contains_char "010" pre = false
      ∧ seg ≠ "" ∧ all_digits seg = true
      ∧ frag ≠ "" ∧ all_digits frag = true
      ∧ (tail = "" ∨ tail = String "010" "").
Proof.
  unfold fragments_exist. rewrite existsb_exists. split.
  - intros (x & Hin & Hx). apply fragment_match_spec in Hx
      as (pre & seg & frag & tail & H).
    exists x, pre, seg, frag, tail. split; [by apply list_elem_of_In|done].
  - intros (x & pre & seg & frag & tail & Hin & H).
    exists x. split; [by apply list_elem_of_In|].
    apply fragment_match_spec. by exists pre, seg, frag, tail.
Qed.

(** * The capability sets of the concrete classes *)



End Yledl.

(** * Concrete runs *)

(** A sanitizer that keeps the title (enough for titles without excluded
    characters) and a user agent. *)
Definition keep_title (title excludechars : string) : string := title.
Definition test_user_agent : string := "yle-dl".

Definition small_file : inode :=
  {| kind := RegularFile; st_size := 100; unlinkable := true |}.

Definition big_file : inode :=
  {| kind := RegularFile; st_size := 5000000; unlinkable := true |}.

(** A Linux world with the files [files] and a filesystem encoding that
    encodes every character, where the [n]-th process call starts process
    [100 + n] unless [popen_fails n], waits and signals behave as given, and
    process [p] exits with [status p]. *)
Definition linux_world (files : gmap string inode) (listing : list string)
    (popen_fails : nat → option exn) (waits kills : nat → option exn)
    (status : pid → Z) : World :=
  {| fs := files; fs_encodes := λ _, true;
     cwd_listing := listing; environ := ∅;
     platform_system := "Linux"; debug_enabled := false;
     popen_outcome := λ n _, match popen_fails n with
                             | Some e => PopenRaises e
                             | None => Started (100 + n)
                             end;
     wait_raises := waits; kill_raises := kills; exit_status := status;
     os_clock := 0; trace := [] |}.

Definition undisturbed (n : nat) : option exn := None.

Definition test_io (name dir : option string) (resume' : bool) : IOContext :=
  {| outputfilename := name; destdir := dir; resume := resume';
     excludechars := "*/|"; proxy := None;
     download_limits := {| ratelimit := None; duration := None |};
     rtmpdump_binary := "rtmpdump"; hds_binary := ["php"; "AdobeHDS.php"];
     ffmpeg_binary := "ffmpeg"; wget_binary := "wget" |}.

(** ** C4 *)

Lemma parse_backends_first_occurrence_order_witness :
  fst (parse_backends ["wget"; "bogus"; "ffmpeg"; "wget"]
         (linux_world ∅ [] undisturbed undisturbed undisturbed (λ _, 0%Z)))
  = Return ["wget"; "ffmpeg"].
Proof.
  destruct (parse_backends_first_occurrence_order
              ["wget"; "bogus"; "ffmpeg"; "wget"]
              (linux_world ∅ [] undisturbed undisturbed undisturbed (λ _, 0%Z)))
    as (_ & _ & _ & _ & _ & H).
  exact H.
Defined.

(** ** C6 *)

Definition demanding_io : IOContext :=
  {| outputfilename := None; destdir := None; resume := true;
     excludechars := "*/|"; proxy := Some "http://proxy:8080";
     download_limits := {| ratelimit := Some 100%Z; duration := Some 60%Z |};
     rtmpdump_binary := "rtmpdump"; hds_binary := ["php"; "AdobeHDS.php"];
     ffmpeg_binary := "ffmpeg"; wget_binary := "wget" |}.

Definition hls_state : State :=
  {| self := HLSBackend_init "http://example/master.m3u8" (Some ".mp4") false;
     world := linux_world ∅ [] undisturbed undisturbed undisturbed (λ _, 0%Z) |}.

Lemma warn_on_unsupported_feature_only_warns_witness :
  warn_on_unsupported_feature demanding_io hls_state
  = (Return tt,
     {| self := self hls_state;
        world := emits
          [Log WARNING "Resume not supported on this stream";
           Log WARNING
             "Proxy not supported on this stream. Trying to continue anyway";
           Log WARNING "Rate limiting not supported on this stream"]
          (world hls_state) |}).
Proof.
  destruct (warn_on_unsupported_feature_only_warns demanding_io hls_state)
    as [H _].
  rewrite H. reflexivity.
Defined.

(** ** C10 *)

Lemma HLS_output_filename_appends_only_without_dot_witness :
  is_HLS (cls (self hls_state)) = true
  ∧ outputfilename (test_io (Some "video") None false) = Some "video"
  ∧ "video" ≠ ""
  ∧ output_filename keep_title "Title" (test_io (Some "video") None false)
      hls_state
    = (Return "video.mp4", hls_state).
Proof.
  split; [reflexivity|]. split; [reflexivity|]. split; [discriminate|].
  destruct (HLS_output_filename_appends_only_without_dot keep_title "Title"
              "video" (test_io (Some "video") None false) hls_state
              eq_refl eq_refl) as [_ Hnodot]; [discriminate|].
  destruct Hnodot as [Hext _].
  - intros Hdot. apply (contains_char_spec "." "video") in Hdot.
    discriminate Hdot.
  - apply (Hext ".mp4"); [reflexivity|discriminate].
Defined.

(** A name with a dot keeps its own suffix on these variants. *)
Example HLS_output_filename_keeps_foreign_suffix :
  fst (output_filename keep_title "Title"
         (test_io (Some "video.old.avi") None false) hls_state)
  = Return "video.old.avi".
Proof. vm_compute. reflexivity. Qed.

(** ** C2 *)

(** The producer exits with 0, the consumer with 1. *)
Definition consumer_fails_world : World :=
  linux_world ∅ [] undisturbed undisturbed undisturbed
    (λ p, if Nat.eqb p 101 then 1%Z else 0%Z).

(** The claim as stated fails: both commands start, nothing interrupts the
    wait, the last command exits with 1, and [execute] returns
    [RD_SUCCESS]. *)
Lemma execute_ignores_last_exit_code :
  popen_outcome consumer_fails_world 0 ["producer"] = Started 100
  ∧ popen_outcome consumer_fails_world 1 ["consumer"] = Started 101
  ∧ (∀ n, wait_raises consumer_fails_world n = None)
  ∧ exit_status consumer_fails_world 101 = 1%Z
  ∧ fst (execute [["producer"]; ["consumer"]] None consumer_fails_world)
    = Return RD_SUCCESS
  ∧ Return RD_SUCCESS ≠ Return RD_FAILED.
Proof.
  split; [reflexivity|]. split; [reflexivity|]. split; [reflexivity|].
  split; [reflexivity|]. split; [vm_compute; reflexivity|discriminate].
Qed.

(** The producer exits with 2. *)
Definition producer_fails_world : World :=
  linux_world ∅ [] undisturbed undisturbed undisturbed
    (λ p, if Nat.eqb p 100 then 2%Z else 0%Z).

Lemma execute_chain_reports_head_exit_code_witness :
  popen_outcome producer_fails_world (os_clock producer_fails_world)
    ["producer"] = Started 100
  ∧ popen_outcome producer_fails_world (S (os_clock producer_fails_world))
      ["consumer"] = Started 101
  ∧ wait_raises producer_fails_world (os_clock producer_fails_world + 2) = None
  ∧ fst (execute [["producer"]; ["consumer"]] None producer_fails_world)
    = Return RD_FAILED.
Proof.
  split; [reflexivity|]. split; [reflexivity|]. split; [reflexivity|].
  destruct (execute_chain_reports_head_exit_code ["producer"] ["consumer"]
              100 101 None producer_fails_world eq_refl eq_refl eq_refl)
    as (evs & _ & _ & Hfailed & _).
  apply Hfailed. discriminate.
Defined.

(** ** C5 *)

(** The first wait (call 1) is interrupted. *)
Definition interrupted_world (kills : nat → option exn) : World :=
  linux_world ∅ []
    undisturbed
    (λ n, if Nat.eqb n 1 then Some KeyboardInterrupt else None)
    kills (λ _, 0%Z).

Lemma execute_interrupted_is_incomplete_witness :
  spawns (popen_outcome (interrupted_world undisturbed))
    (os_clock (interrupted_world undisturbed)) [["rtmpdump"; "-o"; "a.flv"]]
    [100]
  ∧ wait_raises (interrupted_world undisturbed)
      (os_clock (interrupted_world undisturbed)
       + length [["rtmpdump"; "-o"; "a.flv"]])
    = Some KeyboardInterrupt
  ∧ fst (execute [["rtmpdump"; "-o"; "a.flv"]] None
           (interrupted_world undisturbed))
    = Return RD_INCOMPLETE.
Proof.
  split; [by split|]. split; [reflexivity|].
  destruct (execute_interrupted_is_incomplete [["rtmpdump"; "-o"; "a.flv"]]
              100 [] None (interrupted_world undisturbed))
    as (evs & _ & Hsignalled & _).
  - by split.
  - reflexivity.
  - rewrite Hsignalled; [reflexivity|reflexivity|by left].
Defined.

(** The process is gone when the signal is sent: the [OSError] of [os.kill]
    is swallowed. *)
Example execute_interrupted_process_already_dead :
  execute [["rtmpdump"; "-o"; "a.flv"]] None
    (interrupted_world
       (λ n, if Nat.eqb n 2 then Some (OSError "No such process") else None))
  = (Return RD_INCOMPLETE,
     ticks 3
       (emits
          [Log DEBUG "Executing:"; Log DEBUG "rtmpdump -o a.flv";
           Popen {| argv := ["rtmpdump"; "-o"; "a.flv"]; stdin_from := None;
                    stdout_piped := false; popen_env := None;
                    preexec_pdeathsig := true |};
           Wait 100; Kill 100]
          (interrupted_world
             (λ n, if Nat.eqb n 2 then Some (OSError "No such process")
                   else None)))).
Proof. vm_compute. reflexivity. Qed.

(** A second interrupt during the handler's wait is not caught. *)
Example execute_interrupted_twice_raises :
  fst (execute [["rtmpdump"; "-o"; "a.flv"]] None
         (linux_world ∅ [] undisturbed
            (λ n, if Nat.eqb n 1 || Nat.eqb n 3
                  then Some KeyboardInterrupt else None)
            undisturbed (λ _, 0%Z)))
  = Raise KeyboardInterrupt.
Proof. vm_compute. reflexivity. Qed.

(** ** C7 *)

(** The second command of the chain cannot be started. *)
Definition missing_binary_world : World :=
  linux_world ∅ []
    (λ n, if Nat.eqb n 1
          then Some (OSError "No such file or directory") else None)
    undisturbed undisturbed (λ _, 0%Z).

Lemma execute_launch_failure_witness :
  spawns (popen_outcome missing_binary_world) (os_clock missing_binary_world)
    [["rtmpdump"; "-o"; "-"]] [100]
  ∧ popen_outcome missing_binary_world
      (os_clock missing_binary_world + length [["rtmpdump"; "-o"; "-"]])
      ["no-such-ffmpeg"; "-i"; "pipe:0"]
    = PopenRaises (OSError "No such file or directory")
  ∧ fst (execute ([["rtmpdump"; "-o"; "-"]]
                  ++ ["no-such-ffmpeg"; "-i"; "pipe:0"] :: [])
           None missing_binary_world)
    = Return RD_SUBPROCESS_EXECUTE_FAILED.
Proof.
  split; [by split|]. split; [reflexivity|].
  destruct (execute_launch_failure [["rtmpdump"; "-o"; "-"]] [100]
              ["no-such-ffmpeg"; "-i"; "pipe:0"] []
              "No such file or directory" None missing_binary_world)
    as (evs & _ & Hrun).
  - by split.
  - reflexivity.
  - rewrite Hrun. reflexivity.
Defined.

Example execute_launch_failure_log :
  trace (snd (execute [["rtmpdump"; "-o"; "-"];
                       ["no-such-ffmpeg"; "-i"; "pipe:0"]]
                None missing_binary_world))
  = [Log DEBUG "Executing:";
     Log DEBUG "rtmpdump -o - | no-such-ffmpeg -i pipe:0";
     Popen {| argv := ["rtmpdump"; "-o"; "-"]; stdin_from := None;
              stdout_piped := true; popen_env := None;
              preexec_pdeathsig := true |};
     Popen {| argv := ["no-such-ffmpeg"; "-i"; "pipe:0"];
              stdin_from := Some 100; stdout_piped := false;
              popen_env := None; preexec_pdeathsig := false |};
     Log ERROR
       "Failed to execute rtmpdump -o - | no-such-ffmpeg -i pipe:0";
     Log ERROR "No such file or directory"].
Proof. vm_compute. reflexivity. Qed.

(** ** C3 *)

(** [/tmp/Title.flv] and [/tmp/Title-1.flv] are taken. *)
Definition crowded_world : World :=
  linux_world {[ "/tmp/Title.flv" := big_file; "/tmp/Title-1.flv" := big_file ]}
    [] undisturbed undisturbed undisturbed (λ _, 0%Z).

Definition fresh_wget_state (w : World) : State :=
  {| self := WgetBackend_init "http://example/clip" (Some ".flv"); world := w |}.

Lemma output_filename_first_free_name_witness :
  truthy_str (outputfilename (test_io None (Some "/tmp") false)) = false
  ∧ truthy_str (_cached_output_file (self (fresh_wget_state crowded_world)))
    = false
  ∧ fst (output_filename keep_title "Title" (test_io None (Some "/tmp") false)
           (fresh_wget_state crowded_world))
    = Return "/tmp/Title-2.flv"
  ∧ fst (output_filename keep_title "Title" (test_io None (Some "/tmp") true)
           (fresh_wget_state crowded_world))
    = Return "/tmp/Title.flv".
Proof.
  split; [reflexivity|]. split; [reflexivity|]. split.
  - destruct (output_filename_first_free_name keep_title "Title"
                (test_io None (Some "/tmp") false)
                (fresh_wget_state crowded_world) eq_refl)
      as [Hfresh _].
    destruct (Hfresh eq_refl) as [_ Hrename].
    destruct (Hrename eq_refl) as (k & Hfree & Hmin & Hrun & _).
    rewrite Hrun.
    destruct k as [|[|[|k]]].
    + vm_compute in Hfree. discriminate Hfree.
    + vm_compute in Hfree. discriminate Hfree.
    + reflexivity.
    + specialize (Hmin 2 ltac:(lia)). vm_compute in Hmin. discriminate Hmin.
  - destruct (output_filename_first_free_name keep_title "Title"
                (test_io None (Some "/tmp") true)
                (fresh_wget_state crowded_world) eq_refl)
      as [Hfresh _].
    destruct (Hfresh eq_refl) as [Hverbatim _].
    rewrite (Hverbatim eq_refl). reflexivity.
Defined.

(** An instance that has decided for [/tmp/Title-2.flv]. *)
Definition decided_wget_state (w : World) : State :=
  {| self := self (snd (output_filename keep_title "Title"
                          (test_io None (Some "/tmp") false)
                          (fresh_wget_state crowded_world)));
     world := w |}.

(** [/tmp/Title.flv], [/tmp/Title-1.flv] and [/tmp/Title-2.flv] are
    taken. *)
Definition taken_world : World :=
  linux_world {[ "/tmp/Title.flv" := big_file; "/tmp/Title-1.flv" := big_file;
                 "/tmp/Title-2.flv" := big_file ]}
    [] undisturbed undisturbed undisturbed (λ _, 0%Z).

Definition with_fs_encodes (enc : ascii → bool) (w : World) : World :=
  {| fs := fs w; fs_encodes := enc;
     cwd_listing := cwd_listing w; environ := environ w;
     platform_system := platform_system w; debug_enabled := debug_enabled w;
     popen_outcome := popen_outcome w; wait_raises := wait_raises w;
     kill_raises := kill_raises w; exit_status := exit_status w;
     os_clock := os_clock w; trace := trace w |}.

(** A directory whose name has the character 228, which the filesystem
    encoding (ASCII) cannot encode. *)
Definition latin_dir : string := String "/" (String "228" "rger").

(** [latin_dir/Title.flv] is taken; the name with [?] for the character
    228 is not. *)
Definition ascii_world : World :=
  with_fs_encodes (λ _, false)
    (linux_world {[ latin_dir +:+ "/Title.flv" := big_file ]}
       [] undisturbed undisturbed undisturbed (λ _, 0%Z)).

(** The claim as stated fails.  An instance that has decided keeps its
    name: with no explicit name and no resume it returns
    [/tmp/Title-2.flv], which exists, although [/tmp/Title-3.flv] is the
    first name of the sequence that does not; and on a resume with the
    [RESUME] capability for another title it returns that name, not the
    proposed [/tmp/Other.flv].  And on an instance that has not decided,
    existence is tested on the re-encoded name: the proposed name exists,
    its re-encoding with [?] does not, and the existing name is returned. *)
Lemma output_filename_returns_existing_path :
  (truthy_str (outputfilename (test_io None (Some "/tmp") false)) = false
   ∧ fst (output_filename keep_title "Title"
            (test_io None (Some "/tmp") false) (decided_wget_state taken_world))
     = Return "/tmp/Title-2.flv"
   ∧ path_exists taken_world "/tmp/Title-2.flv" = true
   ∧ candidate "/tmp/Title.flv" 3 = "/tmp/Title-3.flv"
   ∧ path_exists taken_world "/tmp/Title-3.flv" = false)
  ∧ (resume (test_io None (Some "/tmp") true) = true
     ∧ RESUME ∈ io_capabilities (self (decided_wget_state taken_world))
     ∧ proposed_filename keep_title (self (decided_wget_state taken_world))
         "Other" (test_io None (Some "/tmp") true)
       = "/tmp/Other.flv"
     ∧ fst (output_filename keep_title "Other"
              (test_io None (Some "/tmp") true)
              (decided_wget_state taken_world))
       = Return "/tmp/Title-2.flv")
  ∧ (truthy_str (_cached_output_file (self (fresh_wget_state ascii_world)))
     = false
     ∧ proposed_filename keep_title (self (fresh_wget_state ascii_world))
         "Title" (test_io None (Some latin_dir) false)
       = latin_dir +:+ "/Title.flv"
     ∧ tested_path ascii_world (latin_dir +:+ "/Title.flv")
       = "/?rger/Title.flv"
     ∧ fst (output_filename keep_title "Title"
              (test_io None (Some latin_dir) false)
              (fresh_wget_state ascii_world))
       = Return (latin_dir +:+ "/Title.flv")
     ∧ path_exists ascii_world (latin_dir +:+ "/Title.flv") = true).
Proof.
  split; [|split].
  - repeat split; vm_compute; reflexivity.
  - split; [reflexivity|]. split; [vm_compute; set_solver|].
    split; vm_compute; reflexivity.
  - repeat split; vm_compute; reflexivity.
Qed.

(** ** C9 *)

Lemma outputfile_from_clip_title_decision_is_final_witness :
  ∃ path s1,
    outputfile_from_clip_title keep_title "Title"
      (test_io None (Some "/tmp") false) false (fresh_wget_state crowded_world)
    = (Return path, s1)
    ∧ ∀ clip_title' io' resume'' w',
        outputfile_from_clip_title keep_title clip_title' io' resume''
          {| self := self s1; world := w' |}
        = (Return path, {| self := self s1; world := w' |}).
Proof.
  exact (outputfile_from_clip_title_decision_is_final keep_title "Title"
           (test_io None (Some "/tmp") false) false
           (fresh_wget_state crowded_world)).
Defined.

(** The decision survives another title, a resume and a filesystem in which
    the chosen name is now taken. *)
Example outputfile_from_clip_title_requery :
  let s1 := snd (outputfile_from_clip_title keep_title "Title"
                   (test_io None (Some "/tmp") false) false
                   (fresh_wget_state crowded_world)) in
  fst (outputfile_from_clip_title keep_title "Other"
         (test_io None None true) true
         {| self := self s1;
            world := linux_world {[ "/tmp/Title-2.flv" := big_file ]} []
                       undisturbed undisturbed undisturbed (λ _, 0%Z) |})
  = Return "/tmp/Title-2.flv".
Proof. vm_compute. reflexivity. Qed.

(** ** C1 *)

Definition hds_state (w : World) : State :=
  {| self := HDSBackend_init "http://example/manifest.f4m" (Some 500%Z)
               "flavor1" (Some ".flv");
     world := w |}.

(** [a.flv] is complete and no fragment is left; the tool would exit
    with 1. *)
Definition downloaded_world : World :=
  linux_world {[ "a.flv" := big_file ]} ["a.flv"; "notes.txt"]
    undisturbed undisturbed undisturbed (λ _, 1%Z).

(** The claim as stated fails: without [io.resume], the output file exists,
    no fragment remains, and [save_stream] still runs AdobeHDS.php (and
    reports its failure). *)
Lemma HDSBackend_save_stream_runs_tool_without_resume :
  fst (output_filename keep_title "Title" (test_io (Some "a.flv") None false)
         (hds_state downloaded_world)) = Return "a.flv"
  ∧ isfile downloaded_world "a.flv" = true
  ∧ fragments_exist "flavor1" downloaded_world = false
  ∧ fst (HDSBackend_save_stream keep_title test_user_agent "Title"
           (test_io (Some "a.flv") None false) (hds_state downloaded_world))
    = Return RD_FAILED
  ∧ Popen {| argv := ["php"; "AdobeHDS.php"; "--manifest";
                      "http://example/manifest.f4m"; "--quality"; "500";
                      "--delete"; "--outfile"; "a.flv"];
             stdin_from := None; stdout_piped := false; popen_env := None;
             preexec_pdeathsig := true |}
    ∈ trace (world (snd (HDSBackend_save_stream keep_title test_user_agent
                           "Title" (test_io (Some "a.flv") None false)
                           (hds_state downloaded_world)))).
Proof.
  split; [vm_compute; reflexivity|]. split; [vm_compute; reflexivity|].
  split; [vm_compute; reflexivity|]. split; [vm_compute; reflexivity|].
  vm_compute. apply list_elem_of_In. simpl. tauto.
Qed.

Lemma HDSBackend_save_stream_already_downloaded_witness :
  cls (self (hds_state downloaded_world))
  = HDSBackend "http://example/manifest.f4m" (Some 500%Z) "flavor1"
  ∧ output_filename keep_title "Title" (test_io (Some "a.flv") None true)
      (hds_state downloaded_world)
    = (Return "a.flv", hds_state downloaded_world)
  ∧ resume (test_io (Some "a.flv") None true) = true
  ∧ "a.flv" ≠ "-"
  ∧ isfile (world (hds_state downloaded_world)) "a.flv" = true
  ∧ fragments_exist "flavor1" (world (hds_state downloaded_world)) = false
  ∧ ∃ evs, only_logs evs
      ∧ HDSBackend_save_stream keep_title test_user_agent "Title"
          (test_io (Some "a.flv") None true) (hds_state downloaded_world)
        = (Return RD_SUCCESS,
           {| self := self (hds_state downloaded_world);
              world := emits evs (world (hds_state downloaded_world)) |}).
Proof.
  split; [reflexivity|]. split; [vm_compute; reflexivity|].
  split; [reflexivity|]. split; [discriminate|].
  split; [vm_compute; reflexivity|]. split; [vm_compute; reflexivity|].
  apply (HDSBackend_save_stream_already_downloaded keep_title test_user_agent
           "Title" (test_io (Some "a.flv") None true)
           (hds_state downloaded_world) (hds_state downloaded_world)
           "http://example/manifest.f4m" (Some 500%Z) "flavor1" "a.flv").
  - reflexivity.
  - vm_compute. reflexivity.
  - reflexivity.
  - discriminate.
  - vm_compute. reflexivity.
  - vm_compute. reflexivity.
Defined.

(** A fragment of the flavor is still there: the tool runs again. *)
Example HDSBackend_save_stream_with_fragments :
  fragments_exist "flavor1"
    (linux_world {[ "a.flv" := big_file ]} ["a.flv"; "a_flavor1_Seg1-Frag17"]
       undisturbed undisturbed undisturbed (λ _, 0%Z)) = true
  ∧ trace (world (snd (HDSBackend_save_stream keep_title test_user_agent
                         "Title" (test_io (Some "a.flv") None true)
                         (hds_state
                            (linux_world {[ "a.flv" := big_file ]}
                               ["a.flv"; "a_flavor1_Seg1-Frag17"]
                               undisturbed undisturbed undisturbed
                               (λ _, 0%Z))))))
    = [Log INFO "Output file: a.flv"; Log DEBUG "Executing:";
       Log DEBUG "php AdobeHDS.php --manifest http://example/manifest.f4m --quality 500 --delete --outfile a.flv";
       Popen {| argv := ["php"; "AdobeHDS.php"; "--manifest";
                         "http://example/manifest.f4m"; "--quality"; "500";
                         "--delete"; "--outfile"; "a.flv"];
                stdin_from := None; stdout_piped := false; popen_env := None;
                preexec_pdeathsig := true |};
       Wait 100; Log INFO "Stream saved to a.flv"].
Proof. split; vm_compute; reflexivity. Qed.

(** ** C8 *)

Definition rtmp_state (w : World) : State :=
  {| self := RTMPBackend_init ["-r"; "rtmp://example/clip"]; world := w |}.

(** A resume state of 100 bytes. *)
Definition stub_world : World :=
  linux_world {[ "Title.flv" := small_file ]} ["Title.flv"]
    undisturbed undisturbed undisturbed (λ _, 0%Z).

Definition rtmp_named : State :=
  snd (output_filename keep_title "Title" (test_io None None true)
         (rtmp_state stub_world)).

Lemma RTMPBackend_save_stream_removes_small_file_witness :
  cls (self (rtmp_state stub_world)) = RTMPBackend ["-r"; "rtmp://example/clip"]
  ∧ resume (test_io None None true) = true
  ∧ output_filename keep_title "Title" (test_io None None true)
      (rtmp_state stub_world)
    = (Return "Title.flv", rtmp_named)
  ∧ fs (world (rtmp_state stub_world)) !! "Title.flv" = Some small_file
  ∧ RTMPBackend_save_stream keep_title test_user_agent "Title"
      (test_io None None true) (rtmp_state stub_world)
    = ExternalDownloader_save_stream keep_title test_user_agent "Title"
        (test_io None None true)
        {| self := self rtmp_named;
           world := emit (Unlinked "Title.flv")
                      (set_fs (delete "Title.flv" (fs (world rtmp_named)))
                         (world rtmp_named)) |}.
Proof.
  split; [reflexivity|]. split; [reflexivity|].
  split; [vm_compute; reflexivity|]. split; [vm_compute; reflexivity|].
  destruct (RTMPBackend_save_stream_removes_small_file keep_title
              test_user_agent "Title" (test_io None None true)
              (rtmp_state stub_world) rtmp_named
              ["-r"; "rtmp://example/clip"] "Title.flv")
    as [Hremove _].
  - reflexivity.
  - reflexivity.
  - vm_compute. reflexivity.
  - destruct (Hremove small_file) as [Hrun _].
    + vm_compute. reflexivity.
    + reflexivity.
    + reflexivity.
    + reflexivity.
    + exact Hrun.
Defined.

Example RTMPBackend_save_stream_trace :
  trace (world (snd (RTMPBackend_save_stream keep_title test_user_agent "Title"
                       (test_io None None true) (rtmp_state stub_world))))
  = [Unlinked "Title.flv"; Log INFO "Output file: Title.flv";
     Log DEBUG "Executing:";
     Log DEBUG "rtmpdump -r rtmp://example/clip -o Title.flv -e";
     Popen {| argv := ["rtmpdump"; "-r"; "rtmp://example/clip"; "-o";
                       "Title.flv"; "-e"];
              stdin_from := None; stdout_piped := false; popen_env := None;
              preexec_pdeathsig := true |};
     Wait 100; Log INFO "Stream saved to Title.flv"]
  ∧ fs (world (snd (RTMPBackend_save_stream keep_title test_user_agent "Title"
                      (test_io None None true) (rtmp_state stub_world))))
      !! "Title.flv" = None.
Proof. split; vm_compute; reflexivity. Qed.

(** * Concrete runs of the further properties *)

(** [which] finds every binary under [/usr/bin], or none. *)
Definition which_usr_bin (binary : string) : option string :=
  Some ("/usr/bin/" +:+ binary).
Definition which_nothing (binary : string) : option string := None.

(** ** X1, X2 *)

Lemma execute_chain_completes_witness :
  spawns (popen_outcome consumer_fails_world) (os_clock consumer_fails_world)
    [["producer"]; ["consumer"]] [100; 101]
  ∧ wait_raises consumer_fails_world
      (os_clock consumer_fails_world + length [["producer"]; ["consumer"]])
    = None
  ∧ fst (execute [["producer"]; ["consumer"]] None consumer_fails_world)
    = Return RD_SUCCESS.
Proof.
  split; [by repeat split|]. split; [reflexivity|].
  destruct (execute_chain_completes [["producer"]; ["consumer"]] 100 [101]
              None consumer_fails_world) as (evs & _ & _ & Hrun).
  - by repeat split.
  - reflexivity.
  - rewrite Hrun. reflexivity.
Defined.

Lemma start_process_pipeline_wiring_witness :
  spawns (popen_outcome consumer_fails_world) (os_clock consumer_fails_world)
    [["producer"]; ["consumer"]] [100; 101]
  ∧ fst (start_process [["producer"]; ["consumer"]] None consumer_fails_world)
    = Return 100.
Proof.
  split; [by repeat split|].
  destruct (start_process_pipeline_wiring [["producer"]; ["consumer"]] 100
              [101] None consumer_fails_world) as (calls & Hrun & _).
  - by repeat split.
  - rewrite Hrun. reflexivity.
Defined.

Example start_process_pipeline_events :
  trace (snd (start_process [["producer"]; ["filter"]; ["consumer"]] None
                consumer_fails_world))
  = [Popen {| argv := ["producer"]; stdin_from := None; stdout_piped := true;
              popen_env := None; preexec_pdeathsig := true |};
     Popen {| argv := ["filter"]; stdin_from := Some 100; stdout_piped := true;
              popen_env := None; preexec_pdeathsig := false |};
     Popen {| argv := ["consumer"]; stdin_from := Some 101;
              stdout_piped := false; popen_env := None;
              preexec_pdeathsig := false |};
     CloseStdout 100; CloseStdout 101].
Proof. vm_compute. reflexivity. Qed.

(** ** X3 *)

(** The interrupt arrives while the second command is being started. *)
Definition interrupted_start_world : World :=
  linux_world ∅ []
    (λ n, if Nat.eqb n 1 then Some KeyboardInterrupt else None)
    undisturbed undisturbed (λ _, 0%Z).

Lemma execute_interrupted_while_starting_witness :
  spawns (popen_outcome interrupted_start_world)
    (os_clock interrupted_start_world) [["producer"]] [100]
  ∧ popen_outcome interrupted_start_world
      (os_clock interrupted_start_world + length [["producer"]]) ["consumer"]
    = PopenRaises KeyboardInterrupt
  ∧ fst (execute ([["producer"]] ++ ["consumer"] :: []) None
           interrupted_start_world)
    = Raise (UnboundLocalError "process").
Proof.
  split; [by split|]. split; [reflexivity|].
  destruct (execute_interrupted_while_starting [["producer"]] [100]
              ["consumer"] [] None interrupted_start_world)
    as (evs & _ & Hrun).
  - by split.
  - reflexivity.
  - rewrite Hrun. reflexivity.
Defined.

(** ** X4 *)

Lemma execute_launch_failure_abandons_chain_witness :
  spawns (popen_outcome missing_binary_world) (os_clock missing_binary_world)
    [["rtmpdump"; "-o"; "-"]] [100]
  ∧ popen_outcome missing_binary_world
      (os_clock missing_binary_world + length [["rtmpdump"; "-o"; "-"]])
      ["no-such-ffmpeg"]
    = PopenRaises (OSError "No such file or directory")
  ∧ fst (execute ([["rtmpdump"; "-o"; "-"]]
                  ++ ["no-such-ffmpeg"] :: [["never-started"]])
           None missing_binary_world)
    = Return RD_SUBPROCESS_EXECUTE_FAILED.
Proof.
  split; [by split|]. split; [reflexivity|].
  destruct (execute_launch_failure_abandons_chain [["rtmpdump"; "-o"; "-"]]
              [100] ["no-such-ffmpeg"] [["never-started"]]
              "No such file or directory" None missing_binary_world)
    as (calls & _ & _ & Hrun).
  - by split.
  - reflexivity.
  - rewrite Hrun. reflexivity.
Defined.

(** ** X5 *)

Lemma combine_envs_overlays_environ_witness :
  ∃ env,
    combine_envs (Some {[ "https_proxy" := "http://proxy:8080" ]})
      consumer_fails_world
    = (Return env, consumer_fails_world)
    ∧ (Some ({[ "https_proxy" := "http://proxy:8080" ]} : gmap string string)
       = None
       ∨ Some ({[ "https_proxy" := "http://proxy:8080" ]} : gmap string string)
         = Some ∅ → env = None)
    ∧ (∀ m, Some ({[ "https_proxy" := "http://proxy:8080" ]}
                  : gmap string string) = Some m → m ≠ ∅ →
         ∃ e, env = Some e
              ∧ ∀ k, e !! k = match m !! k with
                              | Some v => Some v
                              | None => environ consumer_fails_world !! k
                              end).
Proof.
  exact (combine_envs_overlays_environ
           (Some {[ "https_proxy" := "http://proxy:8080" ]})
           consumer_fails_world).
Defined.

(** ** X6, X7 *)

Lemma output_filename_forces_extension_witness :
  is_HLS (cls (self (hds_state downloaded_world))) = false
  ∧ outputfilename (test_io (Some "movie.avi") None false) = Some "movie.avi"
  ∧ "movie.avi" ≠ ""
  ∧ ext (self (hds_state downloaded_world)) = Some ".flv"
  ∧ output_filename keep_title "Title" (test_io (Some "movie.avi") None false)
      (hds_state downloaded_world)
    = (Return "movie.flv",
       {| self := self (hds_state downloaded_world);
          world := emit (Log WARNING
                     "Unsupported extension .avi. Replacing it with .flv")
                     (world (hds_state downloaded_world)) |}).
Proof.
  split; [reflexivity|]. split; [reflexivity|]. split; [discriminate|].
  split; [reflexivity|].
  destruct (output_filename_forces_extension keep_title "Title" "movie.avi"
              ".flv" (test_io (Some "movie.avi") None false)
              (hds_state downloaded_world))
    as (_ & _ & _ & Hreplace).
  - reflexivity.
  - reflexivity.
  - discriminate.
  - reflexivity.
  - rewrite Hreplace.
    + reflexivity.
    + vm_compute. discriminate.
    + vm_compute. discriminate.
Defined.

Definition hds_state_without_extension : State :=
  {| self := HDSBackend_init "http://example/manifest.f4m" None "flavor1" None;
     world := downloaded_world |}.

Lemma output_filename_without_extension_raises_witness :
  is_HLS (cls (self hds_state_without_extension)) = false
  ∧ outputfilename (test_io (Some "movie.avi") None false) = Some "movie.avi"
  ∧ "movie.avi" ≠ ""
  ∧ ext (self hds_state_without_extension) = None
  ∧ fst (output_filename keep_title "Title"
           (test_io (Some "movie.avi") None false)
           hds_state_without_extension)
    = Raise TypeError.
Proof.
  split; [reflexivity|]. split; [reflexivity|]. split; [discriminate|].
  split; [reflexivity|].
  destruct (output_filename_without_extension_raises keep_title "Title"
              "movie.avi" (test_io (Some "movie.avi") None false)
              hds_state_without_extension) as (evs & _ & Hrun).
  - reflexivity.
  - reflexivity.
  - discriminate.
  - reflexivity.
  - rewrite Hrun. reflexivity.
Defined.

(** ** X8, X9, X10 *)

Lemma next_available_filename_total_witness :
  ∃ k,
    (k ≤ S (size (fs crowded_world)))%nat
    ∧ next_available_filename "/tmp/Title.flv" crowded_world
      = (Return (candidate "/tmp/Title.flv" k),
         emits (map (λ j, exists_log (candidate "/tmp/Title.flv" j)) (seq 0 k))
           crowded_world)
    ∧ path_exists crowded_world
        (tested_path crowded_world (candidate "/tmp/Title.flv" k)) = false
    ∧ (∀ j, j < k →
         path_exists crowded_world
           (tested_path crowded_world (candidate "/tmp/Title.flv" j)) = true)
    ∧ (tested_path crowded_world "/tmp/Title.flv" = "/tmp/Title.flv" →
       path_exists crowded_world (candidate "/tmp/Title.flv" k) = false
       ∧ ∀ j, j < k → path_exists crowded_world (candidate "/tmp/Title.flv" j)
                      = true)
    ∧ candidate "/tmp/Title.flv" k
      = fst (splitext "/tmp/Title.flv")
        +:+ (if Nat.eqb k 0 then "" else "-" +:+ str_nat k)
        +:+ snd (splitext "/tmp/Title.flv").
Proof.
  exact (next_available_filename_total "/tmp/Title.flv" crowded_world).
Defined.

(** With a filesystem encoding that cannot encode the name, the name
    returned exists: only its re-encoding does not. *)
Example next_available_filename_lossy_encoding :
  next_available_filename (latin_dir +:+ "/Title.flv") ascii_world
  = (Return (latin_dir +:+ "/Title.flv"), ascii_world)
  ∧ path_exists ascii_world (latin_dir +:+ "/Title.flv") = true
  ∧ path_exists ascii_world
      (tested_path ascii_world (latin_dir +:+ "/Title.flv")) = false.
Proof. repeat split; vm_compute; reflexivity. Qed.

Lemma output_filename_only_logs_and_caches_witness :
  ∃ evs,
    only_logs evs
    ∧ world (snd (output_filename keep_title "Title"
                    (test_io None (Some "/tmp") false)
                    (fresh_wget_state crowded_world)))
      = emits evs (world (fresh_wget_state crowded_world)).
Proof.
  destruct (output_filename_only_logs_and_caches keep_title "Title"
              (test_io None (Some "/tmp") false)
              (fresh_wget_state crowded_world)) as (evs & Hevs & Hw & _).
  exists evs. split; [exact Hevs|exact Hw].
Defined.

Definition wget_named : State :=
  snd (output_filename keep_title "Title" (test_io None (Some "/tmp") false)
         (fresh_wget_state crowded_world)).

Lemma output_filename_requery_is_stable_witness :
  output_filename keep_title "Title" (test_io None (Some "/tmp") false)
    (fresh_wget_state crowded_world)
  = (Return "/tmp/Title-2.flv", wget_named)
  ∧ ∀ w', ∃ evs,
      only_logs evs
      ∧ output_filename keep_title "Title" (test_io None (Some "/tmp") false)
          {| self := self wget_named; world := w' |}
        = (Return "/tmp/Title-2.flv",
           {| self := self wget_named; world := emits evs w' |}).
Proof.
  split; [vm_compute; reflexivity|].
  apply (output_filename_requery_is_stable keep_title "Title"
           "/tmp/Title-2.flv" (test_io None (Some "/tmp") false)
           (fresh_wget_state crowded_world) wget_named).
  vm_compute. reflexivity.
Defined.

(** ** X11 *)

Lemma ExternalDownloader_save_stream_runs_one_command_witness :
  is_external (cls (self (rtmp_state stub_world))) = true
  ∧ output_filename keep_title "Title" (test_io None None true)
      (rtmp_state stub_world)
    = (Return "Title.flv", rtmp_named)
  ∧ ∃ args env evs,
      only_logs evs
      ∧ ("Title.flv" ∈ args ∨ "file:" +:+ "Title.flv" ∈ args)
      ∧ ExternalDownloader_save_stream keep_title test_user_agent "Title"
          (test_io None None true) (rtmp_state stub_world)
        = match execute [args] env (emits evs (world (rtmp_state stub_world)))
          with
          | (Return retcode, w') =>
              (Return retcode,
               {| self := self rtmp_named;
                  world := if bool_decide (retcode = RD_SUCCESS)
                           then emits (saved_log "Title.flv") w' else w' |})
          | (Raise e, w') => (Raise e, {| self := self rtmp_named; world := w' |})
          end.
Proof.
  split; [reflexivity|]. split; [vm_compute; reflexivity|].
  apply (ExternalDownloader_save_stream_runs_one_command keep_title
           test_user_agent "Title" "Title.flv" (test_io None None true)
           (rtmp_state stub_world) rtmp_named).
  - reflexivity.
  - vm_compute. reflexivity.
Defined.

(** ** X12 *)

Lemma WgetBackend_proxy_environment_witness :
  cls (self (fresh_wget_state crowded_world)) = WgetBackend "http://example/clip"
  ∧ proxy demanding_io = Some "http://proxy:8080"
  ∧ "http://proxy:8080" ≠ ""
  ∧ environ (world (fresh_wget_state crowded_world)) !! "https_proxy" = None
  ∧ ∃ extra env,
      extra_environment demanding_io (fresh_wget_state crowded_world)
      = (Return (Some extra), fresh_wget_state crowded_world)
      ∧ combine_envs (Some extra) (world (fresh_wget_state crowded_world))
        = (Return (Some env), world (fresh_wget_state crowded_world))
      ∧ env !! "https_proxy" = Some "http://proxy:8080"
      ∧ ∀ k, k ≠ "https_proxy" →
             env !! k = environ (world (fresh_wget_state crowded_world)) !! k.
Proof.
  split; [reflexivity|]. split; [reflexivity|]. split; [discriminate|].
  split; [reflexivity|].
  destruct (WgetBackend_proxy_environment "http://example/clip" demanding_io
              (fresh_wget_state crowded_world) eq_refl) as (_ & _ & Hset).
  apply (Hset "http://proxy:8080"); [reflexivity|discriminate|reflexivity].
Defined.

(** ** X13, X15 *)

Lemma HDSBackend_save_stream_downloads_otherwise_witness :
  cls (self (hds_state downloaded_world))
  = HDSBackend "http://example/manifest.f4m" (Some 500%Z) "flavor1"
  ∧ output_filename keep_title "Title" (test_io (Some "a.flv") None false)
      (hds_state downloaded_world)
    = (Return "a.flv", hds_state downloaded_world)
  ∧ (resume (test_io (Some "a.flv") None false) = false ∨ "a.flv" = "-"
     ∨ isfile (world (hds_state downloaded_world)) "a.flv" = false
     ∨ fragments_exist "flavor1" (world (hds_state downloaded_world)) = true)
  ∧ HDSBackend_save_stream keep_title test_user_agent "Title"
      (test_io (Some "a.flv") None false) (hds_state downloaded_world)
    = ExternalDownloader_save_stream keep_title test_user_agent "Title"
        (test_io (Some "a.flv") None false) (hds_state downloaded_world).
Proof.
  split; [reflexivity|]. split; [vm_compute; reflexivity|].
  split; [by left|].
  apply (HDSBackend_save_stream_downloads_otherwise keep_title test_user_agent
           "Title" (test_io (Some "a.flv") None false)
           (hds_state downloaded_world) (hds_state downloaded_world)
           "http://example/manifest.f4m" (Some 500%Z) "flavor1" "a.flv").
  - reflexivity.
  - vm_compute. reflexivity.
  - by left.
Defined.

Definition rtmp_named_fresh : State :=
  snd (output_filename keep_title "Title" (test_io None None false)
         (rtmp_state stub_world)).

Lemma RTMPBackend_save_stream_without_resume_witness :
  resume (test_io None None false) = false
  ∧ output_filename keep_title "Title" (test_io None None false)
      (rtmp_state stub_world)
    = (Return "Title-1.flv", rtmp_named_fresh)
  ∧ RTMPBackend_save_stream keep_title test_user_agent "Title"
      (test_io None None false) (rtmp_state stub_world)
    = ExternalDownloader_save_stream keep_title test_user_agent "Title"
        (test_io None None false) rtmp_named_fresh.
Proof.
  split; [reflexivity|]. split; [vm_compute; reflexivity|].
  apply (RTMPBackend_save_stream_without_resume keep_title test_user_agent
           "Title" "Title-1.flv" (test_io None None false)
           (rtmp_state stub_world) rtmp_named_fresh).
  - reflexivity.
  - vm_compute. reflexivity.
Defined.

(** ** X14 *)

Lemma fragments_exist_spec_witness :
  fragments_exist "flavor1"
    (linux_world ∅ ["a.flv"; "a_flavor1_Seg1-Frag17"]
       undisturbed undisturbed undisturbed (λ _, 0%Z)) = true.
Proof.
  apply (fragments_exist_spec "flavor1").
  exists "a_flavor1_Seg1-Frag17", "a", "1", "17", "".
  split; [apply list_elem_of_In; simpl; tauto|].
  split; [reflexivity|]. split; [reflexivity|]. split; [discriminate|].
  split; [reflexivity|]. split; [discriminate|]. split; [reflexivity|].
  by left.
Defined.

(** Names that are not fragments of the flavor. *)
Example fragments_exist_rejects :
  fragments_exist "flavor1"
    (linux_world ∅
       ["a.flv"; "a_flavor1_Seg1-Frag"; "a_flavor2_Seg1-Frag2";
        "a_flavor1_Seg1-Frag2.tmp"; "a_flavor1_Seg-Frag2"]
       undisturbed undisturbed undisturbed (λ _, 0%Z)) = false.
Proof. vm_compute. reflexivity. Qed.

(** ** X16 *)

Lemma parse_backends_app_witness :
  ∃ r1 r2,
    fst (parse_backends ["ffmpeg"; "bogus"] consumer_fails_world) = Return r1
    ∧ fst (parse_backends ["wget"; "ffmpeg"] consumer_fails_world) = Return r2
    ∧ fst (parse_backends (["ffmpeg"; "bogus"] ++ ["wget"; "ffmpeg"])
             consumer_fails_world)
      = Return (r1 ++ filter (λ x, x ∉ r1) r2).
Proof.
  exact (parse_backends_app ["ffmpeg"; "bogus"] ["wget"; "ffmpeg"]
           consumer_fails_world).
Defined.

(** ** X17, X18, X19 *)

Lemma ExternalDownloader_pipe_chain_witness :
  is_external (cls (self (rtmp_state stub_world))) = true
  ∧ ∃ args env evs,
      only_logs evs
      ∧ build_pipe_args test_user_agent (test_io None None false)
          (rtmp_state stub_world)
        = (Return args, rtmp_state stub_world)
      ∧ ExternalDownloader_pipe test_user_agent which_usr_bin
          (test_io None None false) (Some "http://example/subs.srt")
          (rtmp_state stub_world)
        = external_downloader
            [args; mux_command "ffmpeg" "http://example/subs.srt"] env
            {| self := self (rtmp_state stub_world);
               world := emits evs (world (rtmp_state stub_world)) |}.
Proof.
  split; [reflexivity|].
  destruct (ExternalDownloader_pipe_chain test_user_agent which_usr_bin
              (test_io None None false) (Some "http://example/subs.srt")
              (rtmp_state stub_world) eq_refl)
    as (args & env & evs & Hevs & Hargs & _ & Hmux & _).
  exists args, env, evs. split; [exact Hevs|]. split; [exact Hargs|].
  apply Hmux; [discriminate|reflexivity|reflexivity].
Defined.

(** Without ffmpeg on the path the subtitles are dropped with two
    warnings. *)
Example ExternalDownloader_pipe_without_ffmpeg :
  trace (world (snd (ExternalDownloader_pipe test_user_agent which_nothing
                       (test_io None None false)
                       (Some "http://example/subs.srt")
                       (rtmp_state stub_world))))
  = [Log WARNING "ffmpeg not found. Subtitles disabled.";
     Log WARNING "Set the path to ffmpeg using --ffmpeg";
     Log DEBUG "Executing:";
     Log DEBUG "rtmpdump -r rtmp://example/clip -o -";
     Popen {| argv := ["rtmpdump"; "-r"; "rtmp://example/clip"; "-o"; "-"];
              stdin_from := None; stdout_piped := false; popen_env := None;
              preexec_pdeathsig := true |};
     Wait 100].
Proof. vm_compute. reflexivity. Qed.

(** A failed run (exit code 1) with a cookie file left behind. *)
Definition cookie_world : World :=
  linux_world {[ "Cookies.txt" := small_file ]} ["Cookies.txt"]
    undisturbed undisturbed undisturbed (λ _, 1%Z).

Lemma HDSBackend_pipe_cleans_cookies_witness :
  fst (HDSBackend_pipe test_user_agent which_nothing (test_io None None false)
         None (hds_state cookie_world))
  = Return RD_FAILED
  ∧ fs (world (snd (HDSBackend_pipe test_user_agent which_nothing
                      (test_io None None false) None
                      (hds_state cookie_world))))
    = delete "Cookies.txt" (fs cookie_world).
Proof.
  destruct (HDSBackend_pipe_cleans_cookies test_user_agent which_nothing
              (test_io None None false) None (hds_state cookie_world))
    as [Hreturns _].
  destruct (Hreturns RD_FAILED
              (snd (ExternalDownloader_pipe test_user_agent which_nothing
                      (test_io None None false) None
                      (hds_state cookie_world))))
    as (w2 & Hrun & Hremoved & _).
  { vm_compute. reflexivity. }
  rewrite Hrun. split; [reflexivity|]. simpl.
  destruct (Hremoved small_file) as [Hfs _];
    [vm_compute; reflexivity|reflexivity|reflexivity|].
  rewrite Hfs. vm_compute. reflexivity.
Defined.

Lemma HLSBackend_pipe_single_command_witness :
  cls (self hls_state) = HLSBackend "http://example/master.m3u8" false
  ∧ truthy_str (Some "http://example/subs.srt") = true
  ∧ HLSBackend_pipe test_user_agent (test_io None None false) (Some "http://example/subs.srt")
      hls_state
    = external_downloader
        [["ffmpeg"; "-y"; "-loglevel"; "error"; "-stats";
          "-thread_queue_size"; "512"; "-i"; "http://example/master.m3u8";
          "-thread_queue_size"; "512"; "-i"; "http://example/subs.srt";
          "-vcodec"; "copy"; "-acodec"; "aac"; "-scodec"; "copy";
          "-f"; "matroska"; "pipe:1"]]
        None hls_state.
Proof.
  split; [reflexivity|]. split; [reflexivity|].
  destruct (HLSBackend_pipe_single_command test_user_agent (test_io None None false)
              (Some "http://example/subs.srt") hls_state
              "http://example/master.m3u8" false false eq_refl)
    as [Hsubs _].
  rewrite (Hsubs eq_refl). reflexivity.
Defined.

(** ** X20 *)

